(** * The screen upload dialog (src/components/upload-screen-dialog.tsx)

    A shallow embedding of [UploadScreenDialog]: the form schema, the
    dropzone options, the file reader, and the create-or-update routine
    ([onSubmit], [updateExistingScreen], [createNewVersion],
    [createNewScreen]) that talks to the [screens] relation.

    The component's functions are [async]; every [await] is a sequential
    suspension point of a single event handler, so a handler is modelled as
    a state transformer on the [World] that may return or throw. *)

From Stdlib Require Import ZArith String Ascii List Lia.
From stdpp Require Import base tactics option list numbers sorting relations.
Import ListNotations.

Local Open Scope Z_scope.

(** ** JavaScript values *)

(** A JavaScript string is a sequence of UTF-16 code units; [length] counts
    code units, as [String.prototype.length] does. *)
Abbreviation jsstring := (list N).

(** A string literal of the source (the literals are all ASCII). *)
Definition lit (s : string) : jsstring :=
  N_of_ascii <$> list_ascii_of_string s.

(** The values that can stand where the source reads a version: a number,
    [NaN], [null], or [undefined] for a missing property. A number is a
    double in the source and an integer here; the two agree on the safe
    integers ([safe_integer] below), and every property that depends on the
    value of a sum states that range as a hypothesis. *)
Inductive JsValue :=
| JsNumber (z : Z)
| JsNaN
| JsNull
| JsUndefined.

(** [v + 1]: [null] converts to [0], [undefined] to [NaN]. On a number the
    sum is the integer sum, which is the double sum as long as the number
    is a safe integer. *)
Definition js_plus_one (v : JsValue) : JsValue :=
  match v with
  | JsNumber z => JsNumber (z + 1)
  | JsNaN => JsNaN
  | JsNull => JsNumber 1
  | JsUndefined => JsNaN
  end.

(** [ToBoolean]: [0], [NaN], [null] and [undefined] are falsy. *)
Definition truthy (v : JsValue) : bool :=
  match v with
  | JsNumber z => negb (z =? 0)
  | _ => false
  end.

(** [v || 1], read back as the integer that is sent to the backend: a truthy
    [v] is a non-zero number. *)
Definition or_one (v : JsValue) : Z :=
  match v with
  | JsNumber z => if truthy v then z else 1
  | _ => 1
  end.

(** What is thrown and caught: a backend error object, a fresh [Error] with
    its message, or the event passed to [reader.onerror]. *)
Record PostgrestError := { code : string; message : string }.

Inductive Thrown :=
| ThrownPostgrest (e : PostgrestError)
| ThrownError (msg : string)
| ThrownEvent (ev : string).

(** ** The [screens] relation *)

Module screens.
(** Modelled from the spec: the row type of [Database] (declared in
    [@/types/supabase], which is not among the sources), a relation with
    the columns [id], [name], [html_file], [version], [changes]; [id] is
    generated by the storage and [version] is an integer. *)
Record Row := mkRow {
  id : Z;
  name : jsstring;
  html_file : jsstring;
  version : Z;
  changes : jsstring;
}.

(** The columns an [insert] supplies. *)
Record Insert := mkInsert {
  ins_name : jsstring;
  ins_html_file : jsstring;
  ins_version : Z;
  ins_changes : jsstring;
}.
End screens.

Abbreviation Row := screens.Row.

(** The stored table: its rows in storage order and the next generated id. *)
Record Table := { rows : list Row; next_id : Z }.

(** A response of the backend client: [data], [error], [status]. A failed
    request has [data = null]; so has a successful [insert] or [update]
    without a [select]. *)
Record PostgrestResponse (A : Type) := mkResponse {
  data : option A;
  error : option PostgrestError;
  status : Z;
}.
Arguments mkResponse {A}.
Arguments data {A}.
Arguments error {A}.
Arguments status {A}.

Definition failure {A} (e : PostgrestError) : PostgrestResponse A :=
  mkResponse None (Some e) 0.

(** The component reaches the relation through the Supabase client
    ([createClientComponentClient]), a library outside the component. Its
    query builder is modelled by what it documents: a request resolves to a
    response and does not throw; [eq] filters, [order] sorts, [limit] cuts,
    [maybeSingle] turns the rows into at most one object.

    The component makes four kinds of round trip. Each may fail in transit
    or be refused by the storage: [Faults] says, per round trip, whether it
    does and with which error. A failed request leaves the table as it is. *)
Record Faults := {
  lookup_fault : option PostgrestError;
  version_read_fault : option PostgrestError;
  insert_fault : option PostgrestError;
  update_fault : option PostgrestError;
}.

Definition no_faults : Faults :=
  {| lookup_fault := None; version_read_fault := None;
     insert_fault := None; update_fault := None |}.

(** [.eq('name', n)] *)
Definition eq_name (n : jsstring) (rs : list Row) : list Row :=
  filter (λ r, screens.name r = n) rs.

(** [.eq('id', i)] *)
Definition eq_id (i : Z) (r : Row) : bool := bool_decide (screens.id r = i).

(** The error of [.maybeSingle()] when the filter matches several rows. *)
Definition PGRST116 : PostgrestError :=
  {| code := "PGRST116";
     message := "JSON object requested, multiple (or no) rows returned" |}.

(** [.maybeSingle()]: no row gives [data = null] without an error, one row
    gives that row, several rows give an error (and [data = null]). *)
Definition maybeSingle {A} (rs : list A) : PostgrestResponse A :=
  match rs with
  | [] => mkResponse None None 200
  | [r] => mkResponse (Some r) None 200
  | _ :: _ :: _ => mkResponse None (Some PGRST116) 406
  end.

(** [.order('version', { ascending: false })]: a stable insertion sort. *)
Fixpoint insert_desc (r : Row) (rs : list Row) : list Row :=
  match rs with
  | [] => [r]
  | r' :: rs' =>
      if screens.version r' <? screens.version r
      then r :: r' :: rs'
      else r' :: insert_desc r rs'
  end.

Definition order_version_desc (rs : list Row) : list Row :=
  foldr insert_desc [] rs.

(** [.limit(n)] *)
Definition limit {A} (n : nat) (rs : list A) : list A := take n rs.

(** [from('screens').select('id').eq('name', n).maybeSingle()];
    the selected object [{ id }] is modelled by its [id]. *)
Definition select_id_by_name (net : Faults) (n : jsstring) (t : Table)
  : PostgrestResponse Z :=
  match lookup_fault net with
  | Some e => failure e
  | None => maybeSingle (screens.id <$> eq_name n (rows t))
  end.

(** [from('screens').select('version').order('version', { ascending: false
    }).limit(1)]; each selected object [{ version }] is modelled by the
    value of its [version] property. *)
Definition select_last_version (net : Faults) (t : Table)
  : PostgrestResponse (list JsValue) :=
  match version_read_fault net with
  | Some e => failure e
  | None =>
      mkResponse
        (Some ((λ r, JsNumber (screens.version r)) <$>
                 limit 1 (order_version_desc (rows t))))
        None 200
  end.

(** [from('screens').insert(v)]: the storage generates the [id]. *)
Definition stored (i : Z) (v : screens.Insert) : Row :=
  screens.mkRow i (screens.ins_name v) (screens.ins_html_file v)
    (screens.ins_version v) (screens.ins_changes v).

Definition insert_row (net : Faults) (v : screens.Insert) (t : Table)
  : PostgrestResponse unit * Table :=
  match insert_fault net with
  | Some e => (failure e, t)
  | None =>
      (mkResponse None None 201,
       {| rows := rows t ++ [stored (next_id t) v]; next_id := next_id t + 1 |})
  end.

(** [from('screens').update({ html_file: f }).eq('id', i)] *)
Definition set_html_file (f : jsstring) (r : Row) : Row :=
  screens.mkRow (screens.id r) (screens.name r) f
    (screens.version r) (screens.changes r).

Definition update_html_file (net : Faults) (f : jsstring) (i : Z) (t : Table)
  : PostgrestResponse unit * Table :=
  match update_fault net with
  | Some e => (failure e, t)
  | None =>
      (mkResponse None None 204,
       {| rows := (λ r, if eq_id i r then set_html_file f r else r) <$> rows t;
          next_id := next_id t |})
  end.

(** ** Files and the dropzone *)

(** A [File] as the component sees it: name, MIME type, size in bytes, and
    what [FileReader.readAsText] delivers for it. *)
Inductive ReadResult :=
| Loaded (result : option jsstring)
    (** [onload]; [None] when [event.target?.result] is not a string *)
| Failed (ev : string).
    (** [onerror] with its event *)

Record File := {
  file_name : jsstring;
  file_type : jsstring;
  file_size : Z;
  file_read : ReadResult;
}.

(** ** The state the handlers act on *)

Inductive Request :=
| ReqSelectId (n : jsstring)
| ReqSelectLastVersion
| ReqInsert (v : screens.Insert)
| ReqUpdateHtmlFile (f : jsstring) (i : Z).

Inductive ConsoleEntry :=
| ConsoleError (e : Thrown)
    (** [console.error(error)] of [onSubmit] *)
| ConsoleReadError (e : Thrown)
    (** [console.error('Error reading SVG file', error)] *)
| ConsoleFile (f : File)
    (** [console.log(file)] *)
| ConsoleUpdated (d : option unit)
    (** [console.log({ data: updateResponse.data })] *)
| ConsoleNewVersion (d : option unit)
    (** [console.log({ newVersion: response.data })] *)
| ConsoleCreated (d : option unit) (st : Z).
    (** [console.log({ data, status })] *)

Record FormValues := { name : jsstring; file : jsstring }.

Inductive Field := FieldName | FieldFile.

Record World := mkWorld {
  table : Table;                    (* the backend's [screens] relation *)
  requests : list Request;          (* round trips made so far, in order *)
  console : list ConsoleEntry;      (* developer console, in order *)
  dialogOpen : bool;                (* [useState<boolean>(false)] *)
  refreshes : nat;                  (* calls of [router.refresh()] *)
  svgFile : option (jsstring * jsstring);   (* [{ name, content }] *)
  form : FormValues;                (* the form's current values *)
  formErrors : list (Field * string);       (* messages under the fields *)
}.

Definition with_table t w :=
  mkWorld t (requests w) (console w) (dialogOpen w) (refreshes w)
    (svgFile w) (form w) (formErrors w).
Definition with_request q w :=
  mkWorld (table w) (requests w ++ [q]) (console w) (dialogOpen w)
    (refreshes w) (svgFile w) (form w) (formErrors w).
Definition with_console c w :=
  mkWorld (table w) (requests w) (console w ++ [c]) (dialogOpen w)
    (refreshes w) (svgFile w) (form w) (formErrors w).
Definition with_dialogOpen b w :=
  mkWorld (table w) (requests w) (console w) b (refreshes w)
    (svgFile w) (form w) (formErrors w).
Definition with_refresh w :=
  mkWorld (table w) (requests w) (console w) (dialogOpen w)
    (S (refreshes w)) (svgFile w) (form w) (formErrors w).
Definition with_svgFile s w :=
  mkWorld (table w) (requests w) (console w) (dialogOpen w) (refreshes w)
    s (form w) (formErrors w).
Definition with_form f w :=
  mkWorld (table w) (requests w) (console w) (dialogOpen w) (refreshes w)
    (svgFile w) f (formErrors w).
Definition with_formErrors e w :=
  mkWorld (table w) (requests w) (console w) (dialogOpen w) (refreshes w)
    (svgFile w) (form w) e.

(** ** Handlers: state, and a thrown value instead of a result *)

Inductive Outcome (A : Type) :=
| Returned (a : A)
| Threw (e : Thrown).
Arguments Returned {A}.
Arguments Threw {A}.

Definition Async (A : Type) : Type := World → Outcome A * World.

Definition ret {A} (a : A) : Async A := λ w, (Returned a, w).

Definition bind {A B} (m : Async A) (k : A → Async B) : Async B :=
  λ w, match m w with
       | (Returned a, w') => k a w'
       | (Threw e, w') => (Threw e, w')
       end.

Definition throw {A} (e : Thrown) : Async A := λ w, (Threw e, w).

(** [try { body } catch (error) { handler(error) }] *)
Definition try_catch {A} (body : Async A) (handler : Thrown → Async A)
  : Async A :=
  λ w, match body w with
       | (Returned a, w') => (Returned a, w')
       | (Threw e, w') => handler e w'
       end.

Definition modify (f : World → World) : Async unit :=
  λ w, (Returned tt, f w).

(** [await m] followed by the rest of the body is [x ← m; rest]. *)
#[export] Instance async_ret : MRet Async := @ret.
#[export] Instance async_bind : MBind Async := λ A B k m, bind m k.

Definition console_log (c : ConsoleEntry) : Async unit :=
  modify (with_console c).
Definition router_refresh : Async unit := modify with_refresh.
Definition setDialogOpen (b : bool) : Async unit :=
  modify (with_dialogOpen b).

(** A round trip: it is recorded, answered from the table, and may change
    the table. *)
Definition query {A} (q : Request) (f : Table → PostgrestResponse A)
  : Async (PostgrestResponse A) :=
  λ w, (Returned (f (table w)), with_request q w).

Definition mutation {A} (q : Request)
  (f : Table → PostgrestResponse A * Table) : Async (PostgrestResponse A) :=
  λ w, let '(r, t) := f (table w) in
       (Returned r, with_table t (with_request q w)).

(** ** The form schema and its resolver *)

(** [z.string().min(n, { message })] *)
Record MinRule := { min : nat; rule_message : string }.

Definition formSchema (f : Field) : MinRule :=
  match f with
  | FieldName =>
      {| min := 2; rule_message := "Name must be at least 2 characters." |}
  | FieldFile => {| min := 2; rule_message := "A file is necessary." |}
  end.

Definition field_value (f : Field) (values : FormValues) : jsstring :=
  match f with FieldName => name values | FieldFile => file values end.

(** The issue a field raises, if any: its value has fewer code units than
    the rule's minimum. *)
Definition issues (f : Field) (values : FormValues) : list (Field * string) :=
  if (length (field_value f values) <? min (formSchema f))%nat
  then [(f, rule_message (formSchema f))]
  else [].

(** [zodResolver(formSchema)] *)
Definition resolver (values : FormValues) : list (Field * string) :=
  issues FieldName values ++ issues FieldFile values.

(** [form.handleSubmit(onValid)]: the handler runs only on values that pass
    the resolver; otherwise the messages are shown and nothing else is done. *)
Definition handleSubmit (onValid : FormValues → Async unit) : Async unit :=
  λ w, match resolver (form w) with
       | [] => onValid (form w) (with_formErrors [] w)
       | errs => (Returned tt, with_formErrors errs w)
       end.

(** ** The create-or-update routine *)

Section Submission.
(** The behaviour of the network and storage during this submission. *)
Variable net : Faults.

(** [(lastVersion && lastVersion[0]?.version + 1) || 1] *)
Definition newVersion (lastVersion : option (list JsValue)) : Z :=
  or_one match lastVersion with
         | None => JsNull
         | Some l => js_plus_one (hd JsUndefined l)
         end.

(** [if (!r || r.error) throw r ? r.error : new Error(msg)] *)
Definition throw_unless_ok {A} (r : option (PostgrestResponse A))
  (msg : string) : Async unit :=
  match r with
  | None => throw (ThrownError msg)
  | Some r =>
      match error r with
      | Some e => throw (ThrownPostgrest e)
      | None => ret tt
      end
  end.

Definition createNewVersion (screenId : Z) (values : FormValues)
  : Async (PostgrestResponse unit) :=
  lastVersion ← query ReqSelectLastVersion (select_last_version net);
  let v := screens.mkInsert (name values) (file values)
             (newVersion (data lastVersion))
             (lit "TODO: Specify the changes here") in
  response ← mutation (ReqInsert v) (insert_row net v);
  match error response with
  | Some e => throw (ThrownPostgrest e)
  | None =>
      console_log (ConsoleNewVersion (data response));;
      ret response
  end.

Definition updateExistingScreen (values : FormValues) (screenId : Z)
  : Async unit :=
  versionResponse ← createNewVersion screenId values;
  throw_unless_ok (Some versionResponse) "Version response is undefined";;
  updateResponse ←
    mutation (ReqUpdateHtmlFile (file values) screenId)
      (update_html_file net (file values) screenId);
  throw_unless_ok (Some updateResponse) "Update response is undefined";;
  console_log (ConsoleUpdated (data updateResponse)).

Definition createNewScreen (values : FormValues) : Async unit :=
  let v := screens.mkInsert (name values) (file values) 1 (lit "") in
  response ← mutation (ReqInsert v) (insert_row net v);
  match error response with
  | Some e => throw (ThrownPostgrest e)
  | None => console_log (ConsoleCreated (data response) (status response))
  end.

Definition onSubmit (values : FormValues) : Async unit :=
  try_catch
    (existingScreen ←
       query (ReqSelectId (name values))
         (select_id_by_name net (name values));
     match data existingScreen with
     | Some existingScreen_id => updateExistingScreen values existingScreen_id
     | None => createNewScreen values
     end;;
     router_refresh;;
     setDialogOpen false)
    (λ error, console_log (ConsoleError error)).

(** [<form onSubmit={form.handleSubmit(onSubmit)}>] *)
Definition submit : Async unit := handleSubmit onSubmit.
End Submission.

(** ** The dropzone and the file reader *)

(** [useDropzone] comes from react-dropzone, a library outside the
    component. The component fixes the options and the [onDrop] callback;
    how the library sorts the files of a drop into accepted and rejected
    ones is modelled by what it documents ([fileAccepted], [fileMatchSize],
    [acceptedFiles] below). *)

(** The options the component passes to [useDropzone]. *)
Record DropzoneOptions := {
  accept : list (jsstring * list jsstring);
  maxFiles : Z;
  maxSize : Z;
}.

Definition dropzoneOptions : DropzoneOptions :=
  {| accept := [(lit "image/svg+xml", [lit ".svg"])];
     maxFiles := 1;
     maxSize := 1024 * 1024 * 10 |}.

(** [toLowerCase] on the ASCII letters, which is where it matters for the
    comparisons below. *)
Definition toLowerCase (s : jsstring) : jsstring :=
  (λ c, if ((65 <=? c) && (c <=? 90))%N then (c + 32)%N else c) <$> s.

Definition endsWith (s suffix : jsstring) : bool :=
  bool_decide (drop (length s - length suffix)%nat s = suffix).

(** The dropzone flattens [accept] into one list of MIME types and
    extensions and accepts a file that matches any entry: an entry starting
    with a dot is compared with the end of the file's name, an entry ending
    in [/*] with the part of the MIME type before the slash, any other entry
    with the MIME type itself, all in lower case. *)
Definition acceptAttr (o : DropzoneOptions) : list jsstring :=
  concat ((λ e, fst e :: snd e) <$> accept o).

(** [mimeType.replace(/\/.*$/, '')]: what stands before the first slash. *)
Fixpoint baseMimeType (mime : jsstring) : jsstring :=
  match mime with
  | [] => []
  | c :: rest => if (c =? 47)%N then [] else c :: baseMimeType rest
  end.

Definition matches_entry (f : File) (entry : jsstring) : bool :=
  let validType := toLowerCase entry in
  let mimeType := toLowerCase (file_type f) in
  if bool_decide (head validType = Some 46%N)
  then endsWith (toLowerCase (file_name f)) validType
  else if endsWith validType (lit "/*")
       then bool_decide (baseMimeType mimeType = baseMimeType validType)
       else bool_decide (mimeType = validType).

Definition accepts (f : File) (entries : list jsstring) : bool :=
  existsb (matches_entry f) entries.

(** Files dragged in from Firefox can carry a placeholder type, which the
    dropzone lets through. *)
Definition fileAccepted (o : DropzoneOptions) (f : File) : bool :=
  bool_decide (file_type f = lit "application/x-moz-file")
  || accepts f (acceptAttr o).

Definition fileMatchSize (o : DropzoneOptions) (f : File) : bool :=
  negb (maxSize o <? file_size f).

(** The files of one drop that the dropzone passes to [onDrop]: those of an
    accepted type and size, and none at all when these are more than
    [maxFiles]. *)
Definition acceptedFiles (o : DropzoneOptions) (dropped : list File)
  : list File :=
  let ok := List.filter (λ f, fileAccepted o f && fileMatchSize o f) dropped in
  if (1 <=? maxFiles o) && (maxFiles o <? Z.of_nat (length ok))
  then []
  else ok.

(** [new Promise((resolve, reject) => { ... reader.readAsText(file) })] *)
Definition readSvgFile (f : File) : Async jsstring :=
  match file_read f with
  | Loaded (Some result) => ret result
  | Loaded None => throw (ThrownError "File content could not be read")
  | Failed ev => throw (ThrownEvent ev)
  end.

Definition setSvgFile (s : jsstring * jsstring) : Async unit :=
  modify (with_svgFile (Some s)).

(** [form.setValue('file', v)] *)
Definition form_setValue_file (v : jsstring) : Async unit :=
  modify (λ w, with_form {| name := name (form w); file := v |} w).

(** [handleFileChange(file)]; [None] is an [undefined] argument. *)
Definition handleFileChange (file : option File) : Async unit :=
  match file with
  | None => ret tt
  | Some f =>
      try_catch
        (svgContent ← readSvgFile f;
         setSvgFile (file_name f, svgContent);;
         console_log (ConsoleFile f);;
         form_setValue_file svgContent)
        (λ error, console_log (ConsoleReadError error))
  end.

(** [onDrop: (acceptedFiles) => handleFileChange(acceptedFiles[0])] *)
Definition onDrop (accepted : list File) : Async unit :=
  handleFileChange (head accepted).

(** Dropping [dropped] on the zone. *)
Definition drop_files (dropped : list File) : Async unit :=
  onDrop (acceptedFiles dropzoneOptions dropped).

(** ** Notions used to state the properties *)

(** The maximum of the [version] column over all rows, whatever their name;
    [None] on an empty table. *)
Fixpoint max_version (rs : list Row) : option Z :=
  match rs with
  | [] => None
  | r :: rs' =>
      Some match max_version rs' with
           | None => screens.version r
           | Some m => Z.max (screens.version r) m
           end
  end.

(** The order [order_version_desc] puts rows in: higher versions first. *)
Definition newer_first (a b : Row) : Prop :=
  screens.version b ≤ screens.version a.

(** The row [createNewScreen] asks the backend to insert. *)
Definition first_version (values : FormValues) : screens.Insert :=
  screens.mkInsert (name values) (file values) 1 (lit "").

(** The row [createNewVersion] asks for, given the version it computed. *)
Definition next_version (values : FormValues) (v : Z) : screens.Insert :=
  screens.mkInsert (name values) (file values) v
    (lit "TODO: Specify the changes here").

(** The table after a successful insert of [v]. *)
Definition inserted (v : screens.Insert) (t : Table) : Table :=
  {| rows := rows t ++ [stored (next_id t) v]; next_id := next_id t + 1 |}.

(** The table after a successful update of the rows with id [i]. *)
Definition updated (f : jsstring) (i : Z) (t : Table) : Table :=
  {| rows := (λ r, if eq_id i r then set_html_file f r else r) <$> rows t;
     next_id := next_id t |}.

(** The end of [onSubmit]: after the chosen routine, either refresh and
    close, or log what was thrown. *)
Definition conclude (r : Outcome unit * World) : Outcome unit * World :=
  match r with
  | (Returned _, w') => (Returned tt, with_dialogOpen false (with_refresh w'))
  | (Threw e, w') => (Returned tt, with_console (ConsoleError e) w')
  end.

(** A world in which the dialog is open in front of the table [t], with
    nothing requested or logged yet; [values] is what the form holds. *)
Definition opened (t : Table) (values : FormValues) : World :=
  mkWorld t [] [] true 0 None values [].

(** Sample rows and form values. *)
Definition home_1 : Row :=
  screens.mkRow 1 (lit "home") (lit "<svg>1</svg>") 1 (lit "").
Definition about_5 : Row :=
  screens.mkRow 2 (lit "about") (lit "<svg>a</svg>") 5 (lit "").
Definition home_6 : Row :=
  screens.mkRow 3 (lit "home") (lit "<svg>2</svg>") 6
    (lit "TODO: Specify the changes here").
Definition home_minus_1 : Row :=
  screens.mkRow 1 (lit "home") (lit "<svg>1</svg>") (-1) (lit "").
Definition new_home : FormValues :=
  {| name := lit "home"; file := lit "<svg>new</svg>" |}.
Definition unreachable : PostgrestError :=
  {| code := ""; message := "TypeError: Failed to fetch" |}.

(** ** The dialog as the user drives it *)

(** The state the component mounts with: [useState()] leaves [svgFile]
    undefined, [useState<boolean>(false)] keeps the dialog closed, and
    [useForm] starts from [defaultValues]. *)
Definition defaultValues : FormValues := {| name := lit ""; file := lit "" |}.

Definition initial (t : Table) : World :=
  mkWorld t [] [] false 0 None defaultValues [].

(** What the [file] field renders: [svgFile ? <Badge> : <div
    {...getRootProps()}>]. *)
Inductive FileControl :=
| Badge (n : jsstring)
| DropArea.

Definition file_control (w : World) : FileControl :=
  match svgFile w with
  | Some (n, _) => Badge n
  | None => DropArea
  end.

(** [<Input placeholder="My new screen" {...field} />]: typing sets the
    form's [name]. The messages under the fields are left as they are:
    what the form library does to them while the user types is not
    modelled, and they are next read when a submission has set them anew. *)
Definition field_onChange_name (n : jsstring) : Async unit :=
  modify (λ w, with_form {| name := n; file := file (form w) |} w).

(** What the user can do to the dialog. The drop area exists only while it
    is rendered, that is while no file has been read. *)
Inductive Event :=
| OpenChange (b : bool)          (* [onOpenChange={setDialogOpen}] *)
| TypeName (n : jsstring)        (* the [name] input *)
| Drop (files : list File)       (* the drop area *)
| Submit (net : Faults).         (* [onSubmit={form.handleSubmit(onSubmit)}] *)

Definition handle (ev : Event) : Async unit :=
  match ev with
  | OpenChange b => setDialogOpen b
  | TypeName n => field_onChange_name n
  | Drop files =>
      λ w, match file_control w with
           | DropArea => drop_files files w
           | Badge _ => ret tt w
           end
  | Submit net => submit net
  end.

(** The world after a sequence of events, each handled to its end before
    the next begins. Handlers that overlap (a second submission started
    while the first awaits the backend) are not among these sequences;
    [table_step] below covers what their requests can do to the table. *)
Definition after (evs : list Event) (w : World) : World :=
  foldl (λ w ev, (handle ev w).2) w evs.

(** The integers a double holds exactly and without a neighbour closer than
    1: [Number.isSafeInteger]. *)
Definition safe_integer (z : Z) : Prop := Z.abs z < 2 ^ 53.

Definition js_safe (v : JsValue) : Prop :=
  match v with
  | JsNumber z => safe_integer z
  | _ => True
  end.

(** What the options of the component let through, written out: the size
    is at most 10 MiB, and the MIME type is [image/svg+xml] or the name ends
    in [.svg], in lower case, or the type is the placeholder. *)
Definition lets_through (f : File) : Prop :=
  file_size f ≤ 1024 * 1024 * 10 ∧
  (toLowerCase (file_type f) = lit "image/svg+xml" ∨
   endsWith (toLowerCase (file_name f)) (lit ".svg") = true ∨
   file_type f = lit "application/x-moz-file").

(** What one request of the component can do to the table once the backend
    takes it: add a row, or replace the [html_file] of the rows with an id.
    Chains of such steps cover the requests of any number of submissions in
    any order, overlapping ones included. *)
Inductive table_step : Table → Table → Prop :=
| step_insert v t : table_step t (inserted v t)
| step_update f i t : table_step t (updated f i t).

Definition is_insert (q : Request) : bool :=
  match q with ReqInsert _ => true | _ => false end.

Ltac run :=
  unfold mbind, async_bind, mret, async_ret, bind, ret, throw, try_catch,
    query, mutation, console_log, router_refresh, setDialogOpen, modify,
    throw_unless_ok;
  simpl.

(** * Properties *)

(** ** Ordering by version *)

Lemma insert_desc_perm r rs : insert_desc r rs ≡ₚ r :: rs.
Proof.
  induction rs as [|a rs IH]; simpl; [done|].
  destruct (screens.version a <? screens.version r); [done|].
  rewrite IH. apply Permutation_swap.
Qed.

Lemma order_version_desc_perm rs : order_version_desc rs ≡ₚ rs.
Proof.
  induction rs as [|r rs IH]; simpl; [done|].
  rewrite insert_desc_perm. by f_equiv.
Qed.

Lemma insert_desc_sorted r rs :
  Sorted newer_first rs → Sorted newer_first (insert_desc r rs).
Proof.
  induction rs as [|a rs IH]; intros Hs; simpl.
  - by repeat constructor.
  - apply Sorted_inv in Hs as [Hs Hhd].
    destruct (Z.ltb_spec (screens.version a) (screens.version r)).
    + repeat constructor; [done | done | unfold newer_first; lia].
    + constructor; [by apply IH|].
      destruct rs as [|b rs]; simpl.
      * constructor. unfold newer_first. lia.
      * apply HdRel_inv in Hhd.
        destruct (screens.version b <? screens.version r);
          constructor; [unfold newer_first; lia | done].
Qed.

Lemma order_version_desc_sorted rs : Sorted newer_first (order_version_desc rs).
Proof.
  induction rs as [|r rs IH]; simpl; [constructor|].
  by apply insert_desc_sorted.
Qed.

(** ** The highest stored version *)

Lemma max_version_spec rs m :
  max_version rs = Some m ↔
  (∃ r, r ∈ rs ∧ screens.version r = m) ∧ ∀ r, r ∈ rs → screens.version r ≤ m.
Proof.
  revert m; induction rs as [|r rs IH]; intros m; simpl.
  - split; [done | intros [[r [Hr _]] _]; inversion Hr].
  - destruct (max_version rs) as [m'|] eqn:Hm.
    + destruct (IH m') as [[[r' [Hr' Hv']] Hle] _]; [done|].
      split.
      * intros [= <-]. split.
        -- destruct (Z.max_spec (screens.version r) m') as [[_ ->]|[_ ->]].
           ++ exists r'. split; [by right | done].
           ++ exists r. split; [by left | done].
        -- intros x [->|Hx]%elem_of_cons; [lia | specialize (Hle x Hx); lia].
      * intros [[x [Hx Hxm]] Hall]. f_equal.
        assert (screens.version r ≤ m) by (apply Hall; by left).
        assert (m' ≤ m) by (rewrite <- Hv'; apply Hall; by right).
        apply elem_of_cons in Hx as [->|Hx]; [lia | specialize (Hle x Hx); lia].
    + destruct rs as [|r' rs']; [|done].
      split.
      * intros [= <-]. split; [exists r; split; [by left | done]|].
        by intros x ->%list_elem_of_singleton.
      * intros [[x [->%list_elem_of_singleton Hxm]] _]. by f_equal.
Qed.

Lemma head_insert_desc r rs :
  screens.version <$> head (insert_desc r rs) =
  Some match screens.version <$> head rs with
       | None => screens.version r
       | Some m => Z.max (screens.version r) m
       end.
Proof.
  destruct rs as [|r' rs]; simpl; [done|].
  destruct (Z.ltb_spec (screens.version r') (screens.version r)); simpl;
    f_equal; lia.
Qed.

Lemma head_order_version_desc rs :
  screens.version <$> head (order_version_desc rs) = max_version rs.
Proof.
  induction rs as [|r rs IH]; simpl; [done|].
  by rewrite head_insert_desc, IH.
Qed.

(** The version read answers with the global maximum, when it answers. *)
Lemma select_last_version_data net t :
  version_read_fault net = None →
  data (select_last_version net t) =
  Some match max_version (rows t) with
       | None => []
       | Some m => [JsNumber m]
       end.
Proof.
  intros Hf. unfold select_last_version. rewrite Hf. simpl. f_equal.
  rewrite <- head_order_version_desc. unfold limit.
  by destruct (order_version_desc (rows t)).
Qed.

Lemma select_last_version_fault net t e :
  version_read_fault net = Some e →
  data (select_last_version net t) = None.
Proof. intros Hf. unfold select_last_version. by rewrite Hf. Qed.

(** ** What each routine does, step by step *)

Section Runs.
Variable net : Faults.
Variable values : FormValues.
Variable w : World.

Lemma createNewScreen_run :
  createNewScreen net values w =
  let w1 := with_request (ReqInsert (first_version values)) w in
  match insert_fault net with
  | Some e => (Threw (ThrownPostgrest e), w1)
  | None =>
      (Returned tt,
       with_console (ConsoleCreated None 201)
         (with_table (inserted (first_version values) (table w)) w1))
  end.
Proof.
  unfold createNewScreen; run. unfold insert_row.
  by destruct (insert_fault net).
Qed.

Lemma createNewVersion_run screenId :
  createNewVersion net screenId values w =
  let v := next_version values (newVersion (data (select_last_version net (table w)))) in
  let w1 := with_request (ReqInsert v) (with_request ReqSelectLastVersion w) in
  match insert_fault net with
  | Some e => (Threw (ThrownPostgrest e), w1)
  | None =>
      (Returned (mkResponse None None 201),
       with_console (ConsoleNewVersion None)
         (with_table (inserted v (table w)) w1))
  end.
Proof.
  unfold createNewVersion; run. unfold insert_row.
  by destruct (insert_fault net).
Qed.

Lemma updateExistingScreen_run screenId :
  updateExistingScreen net values screenId w =
  let v := next_version values (newVersion (data (select_last_version net (table w)))) in
  let w1 := with_request (ReqInsert v) (with_request ReqSelectLastVersion w) in
  match insert_fault net with
  | Some e => (Threw (ThrownPostgrest e), w1)
  | None =>
      let w2 :=
        with_request (ReqUpdateHtmlFile (file values) screenId)
          (with_console (ConsoleNewVersion None)
             (with_table (inserted v (table w)) w1)) in
      match update_fault net with
      | Some e => (Threw (ThrownPostgrest e), w2)
      | None =>
          (Returned tt,
           with_console (ConsoleUpdated None)
             (with_table
                (updated (file values) screenId (inserted v (table w))) w2))
      end
  end.
Proof.
  unfold updateExistingScreen. unfold mbind at 1, async_bind at 1, bind at 1.
  rewrite createNewVersion_run. cbv zeta.
  destruct (insert_fault net); [done|].
  run. unfold update_html_file.
  by destruct (update_fault net).
Qed.

Lemma onSubmit_run :
  onSubmit net values w =
  let w0 := with_request (ReqSelectId (name values)) w in
  conclude
    match data (select_id_by_name net (name values) (table w)) with
    | Some i => updateExistingScreen net values i w0
    | None => createNewScreen net values w0
    end.
Proof.
  unfold onSubmit, conclude. run.
  destruct (data (select_id_by_name net (name values) (table w))) as [i|].
  - by destruct (updateExistingScreen net values i _) as [[[]|e] w'].
  - by destruct (createNewScreen net values _) as [[[]|e] w'].
Qed.
End Runs.

(** ** The version [createNewVersion] computes *)

Lemma truthy_successor m : truthy (js_plus_one (JsNumber m)) = true ↔ m ≠ -1.
Proof.
  simpl. rewrite negb_true_iff, Z.eqb_neq. lia.
Qed.

Lemma newVersion_successor m rest :
  m ≠ -1 → newVersion (Some (JsNumber m :: rest)) = m + 1.
Proof.
  intros Hm%truthy_successor. unfold newVersion, or_one. simpl in *.
  by rewrite Hm.
Qed.

Lemma newVersion_truthy v rest :
  truthy (js_plus_one v) = true →
  JsNumber (newVersion (Some (v :: rest))) = js_plus_one v.
Proof.
  unfold newVersion, or_one. simpl.
  destruct (js_plus_one v) as [z| | |]; try done.
  by intros ->.
Qed.

Lemma newVersion_falsy v rest :
  truthy (js_plus_one v) = false → newVersion (Some (v :: rest)) = 1.
Proof.
  unfold newVersion, or_one. simpl.
  destruct (js_plus_one v) as [z| | |]; try done.
  by intros ->.
Qed.

(** The version [createNewVersion] computes in front of a given table. *)
Lemma newVersion_of_table net t :
  newVersion (data (select_last_version net t)) =
  match version_read_fault net with
  | Some _ => 1
  | None =>
      match max_version (rows t) with
      | None => 1
      | Some m => if m =? -1 then 1 else m + 1
      end
  end.
Proof.
  destruct (version_read_fault net) as [e|] eqn:Hf.
  - by rewrite (select_last_version_fault _ _ e).
  - rewrite select_last_version_data by done.
    destruct (max_version (rows t)) as [m|]; [|done].
    destruct (Z.eqb_spec m (-1)) as [->|Hne]; [done|].
    by apply newVersion_successor.
Qed.

(** C10. In [createNewVersion] the new version is 1 when the version read
    gives nothing usable: a [null] result, an empty list, or a falsy
    successor (the highest stored version is -1 and the sum is 0, or the
    [version] property is missing and the sum is [NaN]); otherwise it is the
    successor of the returned value, the returned maximum plus one. The
    insert that follows asks for exactly that version. Where a number is
    added to, it is a safe integer, so that the sum is the one the source
    computes. *)
Theorem newVersion_fallback :
  newVersion None = 1 ∧
  newVersion (Some []) = 1 ∧
  (∀ v rest, js_safe v → truthy (js_plus_one v) = false →
     newVersion (Some (v :: rest)) = 1) ∧
  (safe_integer (-1) ∧
   js_plus_one (JsNumber (-1)) = JsNumber 0 ∧ truthy (JsNumber 0) = false) ∧
  (js_plus_one JsUndefined = JsNaN ∧ truthy JsNaN = false) ∧
  (∀ v rest, js_safe v → truthy (js_plus_one v) = true →
     JsNumber (newVersion (Some (v :: rest))) = js_plus_one v) ∧
  (∀ m rest, safe_integer m → m ≠ -1 →
     newVersion (Some (JsNumber m :: rest)) = m + 1) ∧
  (∀ net screenId values w,
     (∀ m, max_version (rows (table w)) = Some m → safe_integer m) →
     requests (createNewVersion net screenId values w).2 =
     requests w ++
       [ReqSelectLastVersion;
        ReqInsert
          (next_version values
             match version_read_fault net with
             | Some _ => 1
             | None =>
                 match max_version (rows (table w)) with
                 | None => 1
                 | Some m => if m =? -1 then 1 else m + 1
                 end
             end)]).
Proof.
  do 2 (split; [reflexivity|]).
  split; [intros v rest _; apply newVersion_falsy|].
  split; [by repeat split|].
  split; [by split|].
  split; [intros v rest _; apply newVersion_truthy|].
  split; [intros m rest _; apply newVersion_successor|].
  intros net screenId values w _.
  rewrite createNewVersion_run. cbv zeta. rewrite newVersion_of_table.
  destruct (insert_fault net); simpl; by rewrite <- app_assoc.
Qed.

Lemma newVersion_fallback_witness :
  newVersion (Some [JsNumber 5]) = 5 + 1.
Proof.
  refine (proj1 (proj2 (proj2 (proj2 (proj2 (proj2 (proj2
            newVersion_fallback)))))) 5 [] _ _).
  - unfold safe_integer. simpl. lia.
  - lia.
Defined.

(** ** The existence lookup *)

Lemma eq_name_elem n rs r : r ∈ eq_name n rs ↔ r ∈ rs ∧ screens.name r = n.
Proof. unfold eq_name. rewrite list_elem_of_filter. tauto. Qed.

Lemma select_id_by_name_none net n t :
  eq_name n (rows t) = [] → data (select_id_by_name net n t) = None.
Proof.
  intros H. unfold select_id_by_name. rewrite H.
  by destruct (lookup_fault net).
Qed.

Lemma select_id_by_name_single n t r :
  eq_name n (rows t) = [r] →
  data (select_id_by_name no_faults n t) = Some (screens.id r).
Proof. intros H. unfold select_id_by_name. simpl. by rewrite H. Qed.

Lemma select_id_by_name_several net n t r1 r2 rest :
  lookup_fault net = None →
  eq_name n (rows t) = r1 :: r2 :: rest →
  select_id_by_name net n t = mkResponse None (Some PGRST116) 406.
Proof. intros Hf H. unfold select_id_by_name. by rewrite Hf, H. Qed.

Lemma select_id_by_name_fault net n t e :
  lookup_fault net = Some e → select_id_by_name net n t = failure e.
Proof. intros Hf. unfold select_id_by_name. by rewrite Hf. Qed.

(** An error and a row never come together. *)
Lemma select_id_by_name_error net n t e :
  error (select_id_by_name net n t) = Some e →
  data (select_id_by_name net n t) = None.
Proof.
  unfold select_id_by_name. destruct (lookup_fault net); [done|].
  by destruct (_ <$> _) as [|i [|j l]].
Qed.

(** ** Recording a new version *)

(** C1, as stated, fails. First table: two stored rows are named [home], as
    after an earlier update of [home], and every round trip succeeds; the
    submission of [home] then adds a row with version 1, not [6 + 1], and
    rewrites the [html_file] of no stored row. Second table: the one stored
    row has version -1; the added row has version 1, not [-1 + 1]. Third:
    one row is named [home] and the highest version is 5, but the version
    read fails; the added row has version 1, not [5 + 1]. *)
Lemma global_successor_counterexample :
  (let t := {| rows := [home_1; about_5; home_6]; next_id := 4 |} in
   let w' := (onSubmit no_faults new_home (opened t new_home)).2 in
   home_1 ∈ rows t ∧ screens.name home_1 = name new_home ∧
   max_version (rows t) = Some 6 ∧
   rows (table w') =
     [home_1; about_5; home_6;
      screens.mkRow 4 (lit "home") (lit "<svg>new</svg>") 1 (lit "")] ∧
   requests w' =
     [ReqSelectId (lit "home");
      ReqInsert (screens.mkInsert (lit "home") (lit "<svg>new</svg>") 1 (lit ""))]) ∧
  (let t := {| rows := [home_minus_1]; next_id := 2 |} in
   let w' := (onSubmit no_faults new_home (opened t new_home)).2 in
   eq_name (name new_home) (rows t) = [home_minus_1] ∧
   max_version (rows t) = Some (-1) ∧
   rows (table w') =
     [set_html_file (lit "<svg>new</svg>") home_minus_1;
      screens.mkRow 2 (lit "home") (lit "<svg>new</svg>") 1
        (lit "TODO: Specify the changes here")]) ∧
  (let net := {| lookup_fault := None; version_read_fault := Some unreachable;
                 insert_fault := None; update_fault := None |} in
   let t := {| rows := [home_1; about_5]; next_id := 3 |} in
   let w' := (onSubmit net new_home (opened t new_home)).2 in
   eq_name (name new_home) (rows t) = [home_1] ∧
   max_version (rows t) = Some 5 ∧
   rows (table w') =
     [set_html_file (lit "<svg>new</svg>") home_1; about_5;
      screens.mkRow 3 (lit "home") (lit "<svg>new</svg>") 1
        (lit "TODO: Specify the changes here")]).
Proof.
  split; [|split]; cbv zeta.
  - split; [by left|]. repeat split; reflexivity.
  - repeat split; reflexivity.
  - repeat split; reflexivity.
Qed.

(** C1, amended. When exactly one stored row has the submitted name, every
    round trip succeeds, and the highest stored version [m] (over the rows
    of all names) is a safe integer other than -1, the submission first
    inserts a row with version [m + 1] and then sets the [html_file] of the
    rows with the matched id to the submitted content; the matched row is
    among them. *)
Theorem update_path_inserts_global_successor values w r m :
  eq_name (name values) (rows (table w)) = [r] →
  max_version (rows (table w)) = Some m →
  safe_integer m →
  m ≠ -1 →
  let new_row :=
    screens.mkRow (next_id (table w)) (name values) (file values) (m + 1)
      (lit "TODO: Specify the changes here") in
  let w' := (onSubmit no_faults values w).2 in
  requests w' =
    requests w ++
      [ReqSelectId (name values); ReqSelectLastVersion;
       ReqInsert (next_version values (m + 1));
       ReqUpdateHtmlFile (file values) (screens.id r)] ∧
  rows (table w') =
    ((λ x, if eq_id (screens.id r) x
           then set_html_file (file values) x else x) <$>
       rows (table w) ++ [new_row]) ∧
  set_html_file (file values) r ∈ rows (table w').
Proof.
  intros Hone Hmax _ Hm new_row w'.
  assert (newVersion (data (select_last_version no_faults (table w))) = m + 1)
    as Hnew.
  { rewrite select_last_version_data by done. rewrite Hmax.
    by apply newVersion_successor. }
  assert (rows (table w') =
          (λ x, if eq_id (screens.id r) x
                then set_html_file (file values) x else x) <$>
            rows (table w) ++ [new_row]) as Hrows.
  { subst w'. rewrite onSubmit_run. cbv zeta.
    rewrite (select_id_by_name_single _ _ _ Hone), updateExistingScreen_run.
    cbv zeta. change (table (with_request _ w)) with (table w).
    by rewrite Hnew. }
  split; [|split; [exact Hrows|]].
  - subst w'. rewrite onSubmit_run. cbv zeta.
    rewrite (select_id_by_name_single _ _ _ Hone), updateExistingScreen_run.
    cbv zeta. change (table (with_request _ w)) with (table w).
    rewrite Hnew. simpl. by rewrite <- !app_assoc.
  - rewrite Hrows. apply list_elem_of_fmap. exists r. split.
    + unfold eq_id. by rewrite bool_decide_eq_true_2.
    + apply elem_of_app. left.
      assert (r ∈ eq_name (name values) (rows (table w))) as Hr
        by (rewrite Hone; by left).
      by apply eq_name_elem in Hr as [Hr _].
Qed.

Lemma update_path_inserts_global_successor_witness :
  let t := {| rows := [home_1; about_5]; next_id := 3 |} in
  rows (table (onSubmit no_faults new_home (opened t new_home)).2) =
    [set_html_file (lit "<svg>new</svg>") home_1; about_5;
     screens.mkRow 3 (lit "home") (lit "<svg>new</svg>") 6
       (lit "TODO: Specify the changes here")].
Proof.
  intros t.
  refine (proj1 (proj2 (update_path_inserts_global_successor new_home
                          (opened t new_home) home_1 5
                          eq_refl eq_refl _ _))).
  - unfold safe_integer. simpl. lia.
  - lia.
Defined.

(** ** Failures on the update path *)

(** C3. On the update path (the lookup found a row, with id [i]): if the
    insert of the new version fails, [updateExistingScreen] throws, the
    update of [html_file] is never requested and the table is as before; if
    the insert succeeds and the update fails, [updateExistingScreen] throws
    and the inserted row stays in the table. In both cases the submission
    ends in the handler's [catch]: the error is logged, the view is not
    refreshed and the dialog is left as it was. *)
Theorem update_path_aborts_without_rollback net values w i :
  data (select_id_by_name net (name values) (table w)) = Some i →
  let v := next_version values
             (newVersion (data (select_last_version net (table w)))) in
  let w' := (onSubmit net values w).2 in
  (∀ e, insert_fault net = Some e →
     (∀ w0, (updateExistingScreen net values i w0).1 = Threw (ThrownPostgrest e)) ∧
     requests w' =
       requests w ++ [ReqSelectId (name values); ReqSelectLastVersion; ReqInsert v] ∧
     table w' = table w ∧
     console w' = console w ++ [ConsoleError (ThrownPostgrest e)] ∧
     refreshes w' = refreshes w ∧ dialogOpen w' = dialogOpen w) ∧
  (∀ e, insert_fault net = None → update_fault net = Some e →
     (∀ w0, (updateExistingScreen net values i w0).1 = Threw (ThrownPostgrest e)) ∧
     requests w' =
       requests w ++ [ReqSelectId (name values); ReqSelectLastVersion; ReqInsert v;
                      ReqUpdateHtmlFile (file values) i] ∧
     rows (table w') = rows (table w) ++ [stored (next_id (table w)) v] ∧
     console w' =
       console w ++ [ConsoleNewVersion None; ConsoleError (ThrownPostgrest e)] ∧
     refreshes w' = refreshes w ∧ dialogOpen w' = dialogOpen w).
Proof.
  intros Hfound v w'. split.
  - intros e Hins. split.
    { intros w0. rewrite updateExistingScreen_run. cbv zeta. by rewrite Hins. }
    subst w'. rewrite onSubmit_run. cbv zeta.
    rewrite Hfound, updateExistingScreen_run. cbv zeta. rewrite Hins.
    simpl. rewrite <- !app_assoc. by destruct w as [[] ? ? ? ? ? ? ?].
  - intros e Hins Hupd. split.
    { intros w0. rewrite updateExistingScreen_run. cbv zeta.
      by rewrite Hins, Hupd. }
    subst w'. rewrite onSubmit_run. cbv zeta.
    rewrite Hfound, updateExistingScreen_run. cbv zeta. rewrite Hins, Hupd.
    simpl. by rewrite <- !app_assoc.
Qed.

Lemma update_path_aborts_without_rollback_witness :
  let t := {| rows := [home_1; about_5]; next_id := 3 |} in
  let down := {| lookup_fault := None; version_read_fault := None;
                 insert_fault := None; update_fault := Some unreachable |} in
  rows (table (onSubmit down new_home (opened t new_home)).2) =
    [home_1; about_5;
     screens.mkRow 3 (lit "home") (lit "<svg>new</svg>") 6
       (lit "TODO: Specify the changes here")].
Proof.
  intros t down.
  exact (proj1 (proj2 (proj2
    (proj2 (update_path_aborts_without_rollback down new_home
              (opened t new_home) 1 eq_refl)
       unreachable eq_refl eq_refl)))).
Defined.

(** ** The frame of the update step *)

Lemma update_rows_elsewhere f i (rs : list Row) :
  (∀ r, r ∈ rs → screens.id r ≠ i) →
  (λ r, if eq_id i r then set_html_file f r else r) <$> rs = rs.
Proof.
  induction rs as [|r rs IH]; intros Hne; [done|].
  rewrite fmap_cons, IH by (intros x Hx; apply Hne; by right).
  unfold eq_id. rewrite bool_decide_eq_false_2; [done|].
  apply Hne. by left.
Qed.

Lemma lookup_found_row net n t i :
  data (select_id_by_name net n t) = Some i →
  ∃ r, eq_name n (rows t) = [r] ∧ screens.id r = i.
Proof.
  unfold select_id_by_name. destruct (lookup_fault net); [done|].
  destruct (eq_name n (rows t)) as [|r [|r' rs]]; simpl; try done.
  intros [= <-]. by exists r.
Qed.

(** C4. On the update path, with the insert and the update both taken by
    the backend, the update step leaves the table with the same rows in the
    same places, each with its [id], [name], [version] and [changes]; a row
    whose id is not the matched one is unchanged altogether and a row with
    the matched id has the submitted content as its [html_file]. When ids
    are the key of the relation (pairwise different, and below the next
    generated id), the matched row is the one row that changes. *)
Theorem update_touches_only_html_file net values w i :
  data (select_id_by_name net (name values) (table w)) = Some i →
  insert_fault net = None →
  update_fault net = None →
  let new_row :=
    stored (next_id (table w))
      (next_version values
         (newVersion (data (select_last_version net (table w))))) in
  let before := rows (table w) ++ [new_row] in
  let w' := (onSubmit net values w).2 in
  length (rows (table w')) = length before ∧
  (∀ k r, before !! k = Some r →
     ∃ r', rows (table w') !! k = Some r' ∧
       screens.id r' = screens.id r ∧ screens.name r' = screens.name r ∧
       screens.version r' = screens.version r ∧
       screens.changes r' = screens.changes r ∧
       (screens.id r ≠ i → r' = r) ∧
       (screens.id r = i → screens.html_file r' = file values)) ∧
  (NoDup (screens.id <$> rows (table w)) →
   (∀ r, r ∈ rows (table w) → screens.id r < next_id (table w)) →
   ∃ pre r post,
     rows (table w) = pre ++ r :: post ∧
     screens.id r = i ∧ screens.name r = name values ∧
     rows (table w') =
       pre ++ set_html_file (file values) r :: post ++ [new_row]).
Proof.
  intros Hfound Hins Hupd new_row before w'.
  assert (rows (table w') =
          (λ r, if eq_id i r then set_html_file (file values) r else r) <$>
            before) as Hrows.
  { subst w'. rewrite onSubmit_run. cbv zeta.
    rewrite Hfound, updateExistingScreen_run. cbv zeta.
    by rewrite Hins, Hupd. }
  split; [|split].
  - by rewrite Hrows, length_fmap.
  - intros k r Hk. rewrite Hrows, list_lookup_fmap, Hk. simpl.
    unfold eq_id. case_bool_decide as Hid.
    + exists (set_html_file (file values) r). by repeat split.
    + exists r. by repeat split.
  - intros Hkey Hbelow.
    destruct (lookup_found_row _ _ _ _ Hfound) as (r & Hone & Hid).
    assert (r ∈ rows (table w) ∧ screens.name r = name values) as [Hr Hname].
    { apply eq_name_elem. rewrite Hone. by left. }
    destruct (list_elem_of_split _ _ Hr) as (pre & post & Hsplit).
    exists pre, r, post. repeat split; try done.
    rewrite Hsplit, fmap_app in Hkey.
    apply list.NoDup_app in Hkey as (_ & Hpre & Hpost).
    rewrite fmap_cons in Hpre, Hpost.
    apply list.NoDup_cons in Hpost as [Hpost _].
    rewrite Hrows. subst before. rewrite Hsplit.
    rewrite <- app_assoc, fmap_app. simpl. rewrite fmap_app. simpl.
    rewrite !update_rows_elsewhere.
    + unfold eq_id. rewrite bool_decide_eq_true_2 by done.
      rewrite bool_decide_eq_false_2; [done|].
      simpl. specialize (Hbelow r Hr). lia.
    + intros x Hx Hxi. apply Hpost. rewrite Hid, <- Hxi.
      by apply list_elem_of_fmap_2.
    + intros x Hx Hxi. apply (Hpre (screens.id x)).
      * by apply list_elem_of_fmap_2.
      * rewrite Hxi, <- Hid. by left.
Qed.

Lemma update_touches_only_html_file_witness :
  let t := {| rows := [about_5; home_1]; next_id := 3 |} in
  let w' := (onSubmit no_faults new_home (opened t new_home)).2 in
  ∃ pre r post,
    rows t = pre ++ r :: post ∧
    rows (table w') =
      pre ++ set_html_file (lit "<svg>new</svg>") r :: post ++
        [screens.mkRow 3 (lit "home") (lit "<svg>new</svg>") 6
           (lit "TODO: Specify the changes here")].
Proof.
  intros t w'.
  destruct (proj2 (proj2 (update_touches_only_html_file no_faults new_home
                            (opened t new_home) 1 eq_refl eq_refl eq_refl)))
    as (pre & r & post & Hsplit & _ & _ & Hrows).
  - by apply (bool_decide_unpack _).
  - intros r Hr. simpl in Hr.
    repeat (apply elem_of_cons in Hr as [->|Hr]; [simpl; lia|]).
    inversion Hr.
  - exists pre, r, post. split; [exact Hsplit | exact Hrows].
Defined.

(** ** A lookup that reports an error *)

(** C5, evaluated where the stored rows share the submitted name. The table
    starts with one row named [home]. A first submission of [home] takes the
    update path and leaves two rows of that name. The next submission of
    [home] makes one lookup; [maybeSingle] answers it with an error and no
    row, so no row is picked: [createNewScreen] runs, a third row is added
    with version 1, no new version is computed and no [html_file] is
    updated. *)
Theorem duplicate_names_are_not_picked :
  let t := {| rows := [home_1]; next_id := 2 |} in
  let first := {| name := lit "home"; file := lit "<svg>2</svg>" |} in
  let w1 := (onSubmit no_faults first (opened t first)).2 in
  let w2 := (onSubmit no_faults new_home w1).2 in
  rows (table w1) =
    [set_html_file (lit "<svg>2</svg>") home_1;
     screens.mkRow 2 (lit "home") (lit "<svg>2</svg>") 2
       (lit "TODO: Specify the changes here")] ∧
  select_id_by_name no_faults (name new_home) (table w1) =
    mkResponse None (Some PGRST116) 406 ∧
  requests w2 =
    requests w1 ++
      [ReqSelectId (lit "home");
       ReqInsert (screens.mkInsert (lit "home") (lit "<svg>new</svg>") 1 (lit ""))] ∧
  rows (table w2) =
    rows (table w1) ++
      [screens.mkRow 3 (lit "home") (lit "<svg>new</svg>") 1 (lit "")] ∧
  console w2 = console w1 ++ [ConsoleCreated None 201].
Proof.
  cbv zeta. split; [reflexivity|]. split.
  - apply (select_id_by_name_several _ _ _
             (set_html_file (lit "<svg>2</svg>") home_1)
             (screens.mkRow 2 (lit "home") (lit "<svg>2</svg>") 2
                (lit "TODO: Specify the changes here")) []);
      reflexivity.
  - repeat split; reflexivity.
Qed.

(** C7. When the lookup by name answers with an error (a failed round trip
    does; so does a name that several rows share), [existingScreen] is
    [null] and the submission goes on with [createNewScreen]: it asks for
    the insert of a row with version 1 and for nothing else, and the
    lookup's error is neither thrown nor logged. What is logged is the
    result of the insert, or the insert's own error if that fails too. *)
Theorem lookup_error_takes_create_path net values w :
  (∀ e, lookup_fault net = Some e →
     error (select_id_by_name net (name values) (table w)) = Some e) ∧
  (∀ r1 r2 rest,
     lookup_fault net = None →
     eq_name (name values) (rows (table w)) = r1 :: r2 :: rest →
     error (select_id_by_name net (name values) (table w)) = Some PGRST116) ∧
  (∀ e, error (select_id_by_name net (name values) (table w)) = Some e →
     data (select_id_by_name net (name values) (table w)) = None ∧
     onSubmit net values w =
       let v := screens.mkInsert (name values) (file values) 1 (lit "") in
       let w1 := with_request (ReqInsert v)
                   (with_request (ReqSelectId (name values)) w) in
       (Returned tt,
        match insert_fault net with
        | None =>
            with_dialogOpen false
              (with_refresh
                 (with_console (ConsoleCreated None 201)
                    (with_table
                       {| rows := rows (table w) ++ [stored (next_id (table w)) v];
                          next_id := next_id (table w) + 1 |}
                       w1)))
        | Some e' => with_console (ConsoleError (ThrownPostgrest e')) w1
        end)).
Proof.
  split; [|split].
  - intros e Hf. by rewrite (select_id_by_name_fault _ _ _ e).
  - intros r1 r2 rest Hf Hdup.
    by rewrite (select_id_by_name_several _ _ _ r1 r2 rest).
  - intros e He.
    pose proof (select_id_by_name_error _ _ _ _ He) as Hnone.
    split; [done|].
    rewrite onSubmit_run. cbv zeta. rewrite Hnone, createNewScreen_run.
    cbv zeta. by destruct (insert_fault net).
Qed.

Lemma lookup_error_takes_create_path_witness :
  let t := {| rows := [home_1; about_5; home_6]; next_id := 4 |} in
  data (select_id_by_name no_faults (name new_home) t) = None.
Proof.
  intros t.
  exact (proj1 (proj2 (proj2 (lookup_error_takes_create_path no_faults
                                new_home (opened t new_home)))
                  PGRST116 eq_refl)).
Defined.

(** ** The submission as a whole *)

(** Every way a submission can go, and the world it leaves. *)
Lemma onSubmit_cases net values w :
  onSubmit net values w =
  let w0 := with_request (ReqSelectId (name values)) w in
  (Returned tt,
   match data (select_id_by_name net (name values) (table w)) with
   | None =>
       let v := first_version values in
       let w1 := with_request (ReqInsert v) w0 in
       match insert_fault net with
       | Some e => with_console (ConsoleError (ThrownPostgrest e)) w1
       | None =>
           with_dialogOpen false
             (with_refresh
                (with_console (ConsoleCreated None 201)
                   (with_table (inserted v (table w)) w1)))
       end
   | Some i =>
       let v := next_version values
                  (newVersion (data (select_last_version net (table w)))) in
       let w1 := with_request (ReqInsert v)
                   (with_request ReqSelectLastVersion w0) in
       match insert_fault net with
       | Some e => with_console (ConsoleError (ThrownPostgrest e)) w1
       | None =>
           let w2 :=
             with_request (ReqUpdateHtmlFile (file values) i)
               (with_console (ConsoleNewVersion None)
                  (with_table (inserted v (table w)) w1)) in
           match update_fault net with
           | Some e => with_console (ConsoleError (ThrownPostgrest e)) w2
           | None =>
               with_dialogOpen false
                 (with_refresh
                    (with_console (ConsoleUpdated None)
                       (with_table
                          (updated (file values) i (inserted v (table w)))
                          w2)))
           end
       end
   end).
Proof.
  rewrite onSubmit_run. cbv zeta.
  destruct (data (select_id_by_name net (name values) (table w))) as [i|].
  - rewrite updateExistingScreen_run. cbv zeta.
    change (table (with_request _ w)) with (table w).
    by destruct (insert_fault net), (update_fault net).
  - rewrite createNewScreen_run. cbv zeta.
    by destruct (insert_fault net).
Qed.

(** ** Creating the first version *)

(** C2. When no stored row has the submitted name, the submission asks the
    backend for exactly one insert, of a row with [version = 1] and
    [changes = ""], and for no update. Once the backend has taken the insert
    the table is the old table followed by that one row; if it refuses the
    insert the table is as before. *)
Theorem create_path_inserts_one_row net values w :
  eq_name (name values) (rows (table w)) = [] →
  let w' := (onSubmit net values w).2 in
  requests w' =
    requests w ++ [ReqSelectId (name values);
                   ReqInsert (screens.mkInsert (name values) (file values) 1 (lit ""))] ∧
  (insert_fault net = None →
     rows (table w') =
       rows (table w) ++
         [screens.mkRow (next_id (table w)) (name values) (file values) 1 (lit "")]) ∧
  (∀ e, insert_fault net = Some e → table w' = table w).
Proof.
  intros Hnone w'. subst w'.
  rewrite onSubmit_cases. cbv zeta.
  rewrite (select_id_by_name_none _ _ _ Hnone).
  destruct (insert_fault net) as [e|]; simpl.
  - split; [by rewrite <- app_assoc|]. split; [done|].
    intros _ _. by destruct w as [[] ? ? ? ? ? ? ?].
  - split; [by rewrite <- app_assoc|]. by split.
Qed.

Lemma create_path_inserts_one_row_witness :
  let w := opened {| rows := [about_5]; next_id := 3 |} new_home in
  rows (table (onSubmit no_faults new_home w).2) =
    [about_5; screens.mkRow 3 (lit "home") (lit "<svg>new</svg>") 1 (lit "")].
Proof.
  intros w.
  exact (proj1 (proj2 (create_path_inserts_one_row no_faults new_home w
                         eq_refl)) eq_refl).
Defined.

(** ** What the submission handler catches *)

(** C6, as stated, fails. A lookup that fails is not caught: nothing is
    logged for it, the new row is created, the view refreshes and the dialog
    closes. The same holds for a version read that fails: the new version
    becomes 1 and the submission ends as a success. And a file that cannot
    be read is caught by [handleFileChange], which logs it under its own
    heading, not by the submission handler. *)
Lemma all_failures_logged_counterexample :
  (let net := {| lookup_fault := Some unreachable; version_read_fault := None;
                 insert_fault := None; update_fault := None |} in
   let t := {| rows := [home_1; about_5]; next_id := 3 |} in
   let w' := (onSubmit net new_home (opened t new_home)).2 in
   error (select_id_by_name net (name new_home) t) = Some unreachable ∧
   console w' = [ConsoleCreated None 201] ∧
   dialogOpen w' = false ∧ refreshes w' = 1%nat) ∧
  (let net := {| lookup_fault := None; version_read_fault := Some unreachable;
                 insert_fault := None; update_fault := None |} in
   let t := {| rows := [home_1; about_5]; next_id := 3 |} in
   let w' := (onSubmit net new_home (opened t new_home)).2 in
   error (select_last_version net t) = Some unreachable ∧
   console w' = [ConsoleNewVersion None; ConsoleUpdated None] ∧
   dialogOpen w' = false ∧ refreshes w' = 1%nat) ∧
  (let f := {| file_name := lit "home.svg"; file_type := lit "image/svg+xml";
               file_size := 120; file_read := Failed "error" |} in
   let w := opened {| rows := []; next_id := 1 |} {| name := lit "home"; file := [] |} in
   handleFileChange (Some f) w =
     (Returned tt, with_console (ConsoleReadError (ThrownEvent "error")) w)).
Proof. repeat split; reflexivity. Qed.

(** C6, amended. Nothing is thrown out of the submission handler and it
    shows no message in the form. An insert that fails, and on the update
    path an update that fails, is thrown to the handler's [catch], which
    only logs it: the dialog is left as it was and the view is not
    refreshed. When no round trip fails the view refreshes, the dialog
    closes and no error is logged. A file that cannot be read is caught and
    logged by the file-change handler. *)
Theorem insert_and_update_failures_are_logged net values w :
  let w' := (onSubmit net values w).2 in
  (onSubmit net values w).1 = Returned tt ∧
  formErrors w' = formErrors w ∧
  (∀ e, insert_fault net = Some e →
     console w' = console w ++ [ConsoleError (ThrownPostgrest e)] ∧
     dialogOpen w' = dialogOpen w ∧ refreshes w' = refreshes w) ∧
  (∀ e i,
     data (select_id_by_name net (name values) (table w)) = Some i →
     insert_fault net = None → update_fault net = Some e →
     console w' =
       console w ++ [ConsoleNewVersion None; ConsoleError (ThrownPostgrest e)] ∧
     dialogOpen w' = dialogOpen w ∧ refreshes w' = refreshes w) ∧
  (net = no_faults →
     dialogOpen w' = false ∧ refreshes w' = S (refreshes w) ∧
     ∀ e, ConsoleError e ∈ console w' → ConsoleError e ∈ console w) ∧
  (∀ f w0, (∀ s, file_read f ≠ Loaded (Some s)) →
     ∃ e, handleFileChange (Some f) w0 =
            (Returned tt, with_console (ConsoleReadError e) w0)).
Proof.
  intros w'. subst w'. rewrite onSubmit_cases. cbv zeta.
  split; [done|]. split.
  { destruct (data _), (insert_fault net), (update_fault net); done. }
  split; [|split; [|split]].
  - intros e He. rewrite He. destruct (data _); simpl; done.
  - intros e i Hi Hins Hupd. rewrite Hi, Hins, Hupd. simpl.
    by rewrite <- app_assoc.
  - intros ->. destruct (data _); simpl; (split; [done|]; split; [done|]);
      intros e He;
      repeat (apply elem_of_app in He as [He|He%list_elem_of_singleton];
              [|done]);
      done.
  - intros f w0 Hf. unfold handleFileChange, readSvgFile. run.
    destruct (file_read f) as [[s|]|ev]; [by destruct (Hf s)| |]; eauto.
Qed.

(** ** Validation before the submission *)

Lemma issues_spec f values :
  issues f values =
  if (length (field_value f values) <? 2)%nat
  then [(f, rule_message (formSchema f))] else [].
Proof. by destruct f. Qed.

(** Values that pass the schema reach [onSubmit]. *)
Lemma long_fields_reach_onSubmit net w :
  (2 ≤ length (name (form w)))%nat →
  (2 ≤ length (file (form w)))%nat →
  submit net w = onSubmit net (form w) (with_formErrors [] w).
Proof.
  intros Hn Hf. unfold submit, handleSubmit, resolver.
  rewrite !issues_spec. simpl.
  destruct (Nat.ltb_spec (length (name (form w))) 2); [lia|].
  destruct (Nat.ltb_spec (length (file (form w))) 2); [lia|].
  done.
Qed.

(** C8. A submission whose [name] (or whose [file]) has fewer than 2
    characters is stopped by the form: [onSubmit] does not run, so no round
    trip is made and the table, the console and the dialog are as before;
    only the messages of the failing fields are shown, and for a short
    [name] that is "Name must be at least 2 characters.". *)
Theorem short_fields_block_submission net w :
  (length (name (form w)) < 2 ∨ length (file (form w)) < 2)%nat →
  ∃ errs,
    submit net w = (Returned tt, with_formErrors errs w) ∧
    requests (submit net w).2 = requests w ∧
    table (submit net w).2 = table w ∧
    ((length (name (form w)) < 2)%nat →
       (FieldName, "Name must be at least 2 characters."%string) ∈ errs) ∧
    ((length (file (form w)) < 2)%nat →
       (FieldFile, "A file is necessary."%string) ∈ errs).
Proof.
  intros Hshort. unfold submit, handleSubmit, resolver.
  rewrite !issues_spec. simpl.
  destruct (Nat.ltb_spec (length (name (form w))) 2) as [Hn|Hn];
    destruct (Nat.ltb_spec (length (file (form w))) 2) as [Hf|Hf];
    simpl; try lia.
  - eexists. repeat split; intros _; [by left | by right; left].
  - eexists. repeat split; [intros _; by left | lia].
  - eexists. repeat split; [lia | intros _; by left].
Qed.

Lemma short_fields_block_submission_witness :
  let w := opened {| rows := [home_1]; next_id := 2 |}
             {| name := lit "h"; file := lit "<svg/>" |} in
  ∃ errs, submit no_faults w = (Returned tt, with_formErrors errs w) ∧
          (FieldName, "Name must be at least 2 characters."%string) ∈ errs.
Proof.
  intros w.
  destruct (short_fields_block_submission no_faults w)
    as (errs & Hrun & _ & _ & Hname & _).
  - left. simpl. lia.
  - exists errs. split; [exact Hrun|]. apply Hname. simpl. lia.
Defined.

(** ** What the dropzone lets through *)

Lemma acceptAttr_options :
  acceptAttr dropzoneOptions = [lit "image/svg+xml"; lit ".svg"].
Proof. reflexivity. Qed.

Lemma fileAccepted_options f :
  fileAccepted dropzoneOptions f = true →
  toLowerCase (file_type f) = lit "image/svg+xml" ∨
  endsWith (toLowerCase (file_name f)) (lit ".svg") = true ∨
  file_type f = lit "application/x-moz-file".
Proof.
  unfold fileAccepted. rewrite acceptAttr_options.
  intros [Hmoz|Hacc]%orb_true_iff.
  - right; right. by apply bool_decide_eq_true in Hmoz.
  - unfold accepts in Hacc. simpl in Hacc.
    apply orb_true_iff in Hacc as [Hmime|Hext].
    + left. unfold matches_entry in Hmime.
      change (toLowerCase (lit "image/svg+xml")) with (lit "image/svg+xml")
        in Hmime.
      change (bool_decide (head (lit "image/svg+xml") = Some 46%N))
        with false in Hmime.
      change (endsWith (lit "image/svg+xml") (lit "/*")) with false in Hmime.
      by apply bool_decide_eq_true in Hmime.
    + right; left. rewrite orb_false_r in Hext.
      unfold matches_entry in Hext.
      change (toLowerCase (lit ".svg")) with (lit ".svg") in Hext.
      by change (bool_decide (head (lit ".svg") = Some 46%N)) with true in Hext.
Qed.

(** C9, as stated, fails: a file whose name ends in [.svg] is let through
    whatever its MIME type is, here [text/plain], and its text becomes the
    form's [file] value. *)
Lemma only_svg_mime_counterexample :
  let f := {| file_name := lit "logo.svg"; file_type := lit "text/plain";
              file_size := 20; file_read := Loaded (Some (lit "plain text")) |} in
  let w := opened {| rows := []; next_id := 1 |}
             {| name := lit "logo"; file := [] |} in
  toLowerCase (file_type f) ≠ lit "image/svg+xml" ∧
  acceptedFiles dropzoneOptions [f] = [f] ∧
  form (drop_files [f] w).2 = {| name := lit "logo"; file := lit "plain text" |}.
Proof. split; [by vm_compute | split; reflexivity]. Qed.

Lemma fileAccepted_complete f :
  toLowerCase (file_type f) = lit "image/svg+xml" ∨
  endsWith (toLowerCase (file_name f)) (lit ".svg") = true ∨
  file_type f = lit "application/x-moz-file" →
  fileAccepted dropzoneOptions f = true.
Proof.
  unfold fileAccepted. rewrite acceptAttr_options.
  intros [Hmime | [Hext | Hmoz]]; apply orb_true_iff.
  - right. unfold accepts. simpl. apply orb_true_iff. left.
    unfold matches_entry.
    change (toLowerCase (lit "image/svg+xml")) with (lit "image/svg+xml").
    change (bool_decide (head (lit "image/svg+xml") = Some 46%N)) with false.
    change (endsWith (lit "image/svg+xml") (lit "/*")) with false.
    cbv iota. by apply bool_decide_eq_true.
  - right. unfold accepts. simpl. apply orb_true_iff. right.
    rewrite orb_false_r. unfold matches_entry.
    change (toLowerCase (lit ".svg")) with (lit ".svg").
    by change (bool_decide (head (lit ".svg") = Some 46%N)) with true.
  - left. by apply bool_decide_eq_true.
Qed.

(** The two checks of the dropzone, under the component's options, are
    [lets_through]. *)
Lemma passes_lets_through f :
  fileAccepted dropzoneOptions f && fileMatchSize dropzoneOptions f = true ↔
  lets_through f.
Proof.
  unfold lets_through, fileMatchSize. simpl.
  rewrite andb_true_iff, negb_true_iff, Z.ltb_ge. split.
  - intros [Htype Hsize]. split; [exact Hsize|]. by apply fileAccepted_options.
  - intros [Hsize Htype]. split; [by apply fileAccepted_complete | exact Hsize].
Qed.

Lemma filter_rejected (p : File → bool) (l : list File) :
  (∀ g, g ∈ l → p g = false) → List.filter p l = [].
Proof.
  induction l as [|g l IH]; intros Hrej; simpl; [done|].
  rewrite (Hrej g) by (by left). apply IH. intros x Hx. apply Hrej. by right.
Qed.

(** C9, amended. Of the files of one drop at most one reaches the reader.
    A file reaches it exactly when it is the only file of the drop that is
    let through: its size is at most 10 MiB (1024 * 1024 * 10 bytes) and
    its MIME type is [image/svg+xml] or its name ends in [.svg], compared in
    lower case (or its type is the placeholder [application/x-moz-file]).
    Files that are not let through are left out, and when two files of a
    drop are let through none reaches the reader. When no file reaches the
    reader, the drop leaves the form and everything else as it was. A file
    that reaches it is read as a whole as text, and when the read succeeds
    that text is the form's [file] value and the dialog remembers the
    file's name. *)
Theorem dropzone_lets_one_svg_through dropped w :
  let accepted := acceptedFiles dropzoneOptions dropped in
  maxFiles dropzoneOptions = 1 ∧
  maxSize dropzoneOptions = 10485760 ∧
  (length accepted ≤ 1)%nat ∧
  (∀ f, f ∈ accepted → f ∈ dropped ∧ lets_through f) ∧
  (∀ pre f post,
     dropped = pre ++ f :: post → lets_through f →
     (∀ g, g ∈ pre ++ post → ¬ lets_through g) →
     accepted = [f]) ∧
  (∀ pre f mid g post,
     dropped = pre ++ f :: mid ++ g :: post →
     lets_through f → lets_through g →
     accepted = []) ∧
  (accepted = [] → drop_files dropped w = (Returned tt, w)) ∧
  (∀ f s, accepted = [f] → file_read f = Loaded (Some s) →
     (drop_files dropped w).1 = Returned tt ∧
     form (drop_files dropped w).2 = {| name := name (form w); file := s |} ∧
     svgFile (drop_files dropped w).2 = Some (file_name f, s) ∧
     table (drop_files dropped w).2 = table w).
Proof.
  intros accepted. split; [done|]. split; [done|].
  set (passes := λ f, fileAccepted dropzoneOptions f
                      && fileMatchSize dropzoneOptions f).
  assert (accepted =
          if 1 <? Z.of_nat (length (List.filter passes dropped))
          then [] else List.filter passes dropped) as Haccepted by done.
  assert (∀ g, ¬ lets_through g → passes g = false) as Hrejected.
  { intros g Hg. destruct (passes g) eqn:Hp; [|done].
    by apply passes_lets_through in Hp. }
  assert (∀ g, lets_through g → passes g = true) as Hpassed.
  { intros g Hg. by apply passes_lets_through. }
  split; [|split; [|split; [|split; [|split]]]].
  - rewrite Haccepted.
    destruct (List.filter passes dropped) as [|f [|g l]]; simpl; try lia.
    replace (1 <? Z.of_nat (S (S (length l)))) with true; [simpl; lia|].
    symmetry. apply Z.ltb_lt. lia.
  - intros f Hf.
    assert (f ∈ List.filter passes dropped) as Hin.
    { rewrite Haccepted in Hf.
      destruct (1 <? _); [by apply elem_of_nil in Hf | done]. }
    apply list_elem_of_In, filter_In in Hin as [Hin Hok].
    split; [by apply list_elem_of_In | by apply passes_lets_through].
  - intros pre f post -> Hf Hothers. rewrite Haccepted.
    rewrite List.filter_app. simpl.
    rewrite (Hpassed f Hf).
    rewrite !filter_rejected; [done| |].
    + intros g Hg. apply Hrejected, Hothers, elem_of_app. by right.
    + intros g Hg. apply Hrejected, Hothers, elem_of_app. by left.
  - intros pre f mid g post -> Hf Hg. rewrite Haccepted.
    replace (1 <? Z.of_nat (length (List.filter passes
                                      (pre ++ f :: mid ++ g :: post))))
      with true; [done|].
    symmetry. apply Z.ltb_lt.
    rewrite List.filter_app. simpl.
    rewrite (Hpassed f Hf), List.filter_app. simpl.
    rewrite (Hpassed g Hg).
    rewrite length_app. simpl. rewrite length_app. simpl. lia.
  - unfold drop_files. fold accepted. by intros ->.
  - intros f s Hone Hread. unfold drop_files. fold accepted. rewrite Hone.
    unfold onDrop, handleFileChange, readSvgFile. simpl. rewrite Hread.
    by run.
Qed.

Lemma dropzone_lets_one_svg_through_witness :
  let f := {| file_name := lit "home"; file_type := lit "image/svg+xml";
              file_size := 1024 * 1024 * 10;
              file_read := Loaded (Some (lit "<svg/>")) |} in
  let big := {| file_name := lit "big.svg"; file_type := lit "image/svg+xml";
                file_size := 1024 * 1024 * 10 + 1;
                file_read := Loaded (Some (lit "<svg/>")) |} in
  acceptedFiles dropzoneOptions [big; f] = [f].
Proof.
  intros f big.
  refine (proj1 (proj2 (proj2 (proj2 (proj2
            (dropzone_lets_one_svg_through [big; f]
               (initial {| rows := []; next_id := 1 |}))))))
            [big] f [] eq_refl _ _).
  - split; [simpl; lia | by left].
  - intros g Hg [Hsize _]. simpl in Hg.
    apply list_elem_of_singleton in Hg as ->. simpl in Hsize. lia.
Defined.

(** * Further properties of the component *)

(** ** What a submission leaves in place *)

Lemma set_html_file_columns f r :
  screens.id (set_html_file f r) = screens.id r ∧
  screens.name (set_html_file f r) = screens.name r ∧
  screens.version (set_html_file f r) = screens.version r ∧
  screens.changes (set_html_file f r) = screens.changes r ∧
  screens.html_file (set_html_file f r) = f.
Proof. by destruct r. Qed.

(** The three tables a submission can leave: the old one, the old one with
    one row added, and that one with the looked-up id's content replaced. *)
Lemma onSubmit_rows net values w :
  let w' := (onSubmit net values w).2 in
  ∃ v,
    screens.ins_name v = name values ∧
    screens.ins_html_file v = file values ∧
    (screens.ins_version v = 1 ∨
     screens.ins_version v =
       newVersion (data (select_last_version net (table w)))) ∧
    (table w' = table w ∨
     (insert_fault net = None ∧ table w' = inserted v (table w)) ∨
     (insert_fault net = None ∧
      ∃ i, data (select_id_by_name net (name values) (table w)) = Some i ∧
           table w' = updated (file values) i (inserted v (table w)))).
Proof.
  intros w'. subst w'. rewrite onSubmit_cases. cbv zeta.
  destruct (data (select_id_by_name net (name values) (table w))) as [i|].
  - eexists (next_version values _). do 2 (split; [done|]).
    split; [by right|].
    destruct (insert_fault net); [by left|].
    destruct (update_fault net); [right; left; done|].
    right; right. split; [done|]. by exists i.
  - exists (first_version values). do 2 (split; [done|]).
    split; [by left|].
    destruct (insert_fault net); [by left | right; left; done].
Qed.

(** X1. Whatever the backend does, a submission removes no stored row and
    moves none: every stored row is found at its place afterwards with the
    same [id], [name], [version] and [changes], and its [html_file] is
    either the old one or, for a row with the looked-up id, the submitted
    content. The table grows by at most one row. *)
Theorem stored_rows_survive_submission net values w :
  let w' := (onSubmit net values w).2 in
  (length (rows (table w)) ≤ length (rows (table w')) ≤
     S (length (rows (table w))))%nat ∧
  ∀ k r, rows (table w) !! k = Some r →
    ∃ r', rows (table w') !! k = Some r' ∧
      screens.id r' = screens.id r ∧ screens.name r' = screens.name r ∧
      screens.version r' = screens.version r ∧
      screens.changes r' = screens.changes r ∧
      (screens.html_file r' = screens.html_file r ∨
       (screens.html_file r' = file values ∧
        data (select_id_by_name net (name values) (table w)) =
          Some (screens.id r))).
Proof.
  intros w'. destruct (onSubmit_rows net values w) as (v & _ & _ & _ & Hshape).
  fold w' in Hshape.
  destruct Hshape as [-> | [[_ ->] | [_ (i & Hi & ->)]]]; simpl.
  - split; [lia|]. intros k r Hk. exists r. by repeat split; try left.
  - rewrite length_app. simpl. split; [lia|].
    intros k r Hk. exists r. split; [by apply lookup_app_l_Some|].
    by repeat split; try left.
  - rewrite length_fmap, length_app. simpl. split; [lia|].
    intros k r Hk.
    rewrite list_lookup_fmap, (lookup_app_l_Some _ _ _ _ Hk). simpl.
    unfold eq_id. case_bool_decide as Hid.
    + exists (set_html_file (file values) r). split; [done|].
      destruct (set_html_file_columns (file values) r) as (? & ? & ? & ? & ?).
      repeat split; try done. right. split; [done|]. by rewrite Hid.
    + exists r. by repeat split; try left.
Qed.

(** ** The round trips of a submission *)

(** X2. Every submission starts with the lookup by name and asks for exactly
    one insert. It makes two round trips when the lookup yields no row and
    three or four when it yields one; an update is asked for only after the
    insert was taken, for the looked-up id and the submitted content, and it
    is the last round trip. *)
Theorem submission_round_trips net values w :
  ∃ made,
    requests (onSubmit net values w).2 = requests w ++ made ∧
    head made = Some (ReqSelectId (name values)) ∧
    (2 ≤ length made ≤ 4)%nat ∧
    (length made = 2%nat ↔
     data (select_id_by_name net (name values) (table w)) = None) ∧
    length (List.filter is_insert made) = 1%nat ∧
    (∀ f i, ReqUpdateHtmlFile f i ∈ made →
       f = file values ∧
       data (select_id_by_name net (name values) (table w)) = Some i ∧
       insert_fault net = None ∧
       last made = Some (ReqUpdateHtmlFile f i)).
Proof.
  rewrite onSubmit_cases. cbv zeta.
  destruct (data (select_id_by_name net (name values) (table w))) as [i|].
  - destruct (insert_fault net) as [e|].
    + eexists [_; _; _]. simpl. rewrite <- !app_assoc.
      split; [done|]. split; [done|]. split; [lia|]. split; [done|].
      split; [done|]. intros f j Hq.
      repeat (apply elem_of_cons in Hq as [[=]|Hq]). inversion Hq.
    + assert (∃ made : list Request,
                (requests w ++ [ReqSelectId (name values)])
                  ++ [ReqSelectLastVersion]
                  ++ [ReqInsert (next_version values
                        (newVersion (data (select_last_version net (table w)))))]
                  ++ [ReqUpdateHtmlFile (file values) i]
                = requests w ++ made ∧
                made = [ReqSelectId (name values); ReqSelectLastVersion;
                        ReqInsert (next_version values
                          (newVersion (data (select_last_version net (table w)))));
                        ReqUpdateHtmlFile (file values) i])
        as (made & Heq & Hmade).
      { eexists. split; [|done]. by rewrite <- app_assoc. }
      exists made. split.
      { rewrite <- Heq. destruct (update_fault net); simpl;
          by rewrite <- !app_assoc. }
      subst made. simpl. split; [done|]. split; [lia|]. split; [done|].
      split; [done|]. intros f j Hq.
      repeat (apply elem_of_cons in Hq as [Hq|Hq]; try discriminate Hq).
      * by injection Hq as -> ->.
      * inversion Hq.
  - eexists [_; _].
    split.
    { destruct (insert_fault net); simpl; by rewrite <- app_assoc. }
    simpl. split; [done|]. split; [lia|]. split; [done|]. split; [done|].
    intros f j Hq.
    repeat (apply elem_of_cons in Hq as [[=]|Hq]). inversion Hq.
Qed.

(** ** Reading a file *)

Lemma handleFileChange_frame picked w :
  (handleFileChange picked w).1 = Returned tt ∧
  table (handleFileChange picked w).2 = table w ∧
  requests (handleFileChange picked w).2 = requests w ∧
  dialogOpen (handleFileChange picked w).2 = dialogOpen w ∧
  refreshes (handleFileChange picked w).2 = refreshes w ∧
  formErrors (handleFileChange picked w).2 = formErrors w ∧
  name (form (handleFileChange picked w).2) = name (form w).
Proof.
  destruct picked as [f|]; simpl; [|done].
  unfold readSvgFile. run. by destruct (file_read f) as [[s|]|ev].
Qed.

Lemma handleFileChange_loaded f s w :
  file_read f = Loaded (Some s) →
  (handleFileChange (Some f) w).2 =
    with_form {| name := name (form w); file := s |}
      (with_console (ConsoleFile f)
         (with_svgFile (Some (file_name f, s)) w)).
Proof. intros Hread. simpl. unfold readSvgFile. rewrite Hread. by run. Qed.

Lemma handleFileChange_failed f w :
  (∀ s, file_read f ≠ Loaded (Some s)) →
  ∃ e, (handleFileChange (Some f) w).2 = with_console (ConsoleReadError e) w.
Proof.
  intros Hbad. simpl. unfold readSvgFile. run.
  destruct (file_read f) as [[s|]|ev]; [by destruct (Hbad s)| |];
    eexists; reflexivity.
Qed.

(** X3. [handleFileChange] lets nothing escape and stays away from the
    backend, the dialog and the [name] field. Without a file it does
    nothing at all. A file that reads as text becomes the badge and the
    form's [file] value, and the file is logged; a file that does not leaves
    the badge and the form as they were and logs the one read error. *)
Theorem file_handling_is_contained picked w :
  let r := handleFileChange picked w in
  r.1 = Returned tt ∧
  table r.2 = table w ∧ requests r.2 = requests w ∧
  dialogOpen r.2 = dialogOpen w ∧ refreshes r.2 = refreshes w ∧
  formErrors r.2 = formErrors w ∧ name (form r.2) = name (form w) ∧
  (picked = None → r.2 = w) ∧
  (∀ f s, picked = Some f → file_read f = Loaded (Some s) →
     svgFile r.2 = Some (file_name f, s) ∧ file (form r.2) = s ∧
     console r.2 = console w ++ [ConsoleFile f]) ∧
  (∀ f, picked = Some f → (∀ s, file_read f ≠ Loaded (Some s)) →
     svgFile r.2 = svgFile w ∧ form r.2 = form w ∧
     ∃ e, console r.2 = console w ++ [ConsoleReadError e]).
Proof.
  intros r. subst r.
  destruct (handleFileChange_frame picked w)
    as (Hret & Htable & Hreq & Hopen & Hrefresh & Herrs & Hname).
  do 7 (split; [assumption|]).
  split; [by intros ->|]. split.
  - intros f s -> Hread. by rewrite (handleFileChange_loaded f s w Hread).
  - intros f -> Hbad. destruct (handleFileChange_failed f w Hbad) as [e ->].
    repeat split; try done. by exists e.
Qed.

(** ** What a submission never resets *)

Lemma onSubmit_keeps_form net values w :
  form (onSubmit net values w).2 = form w ∧
  svgFile (onSubmit net values w).2 = svgFile w.
Proof.
  rewrite onSubmit_cases. cbv zeta.
  by destruct (data _), (insert_fault net), (update_fault net).
Qed.

Lemma submit_keeps_form net w :
  form (submit net w).2 = form w ∧ svgFile (submit net w).2 = svgFile w.
Proof.
  unfold submit, handleSubmit. destruct (resolver (form w)); [|done].
  by destruct (onSubmit_keeps_form net (form w) (with_formErrors [] w)).
Qed.

(** X4. A submission, blocked or not, failed or not, resets nothing the user
    entered: the form's values and the badge are what they were. After a
    success the dialog is closed, and reopening it shows that same state. *)
Theorem submission_resets_nothing net w :
  let w' := (submit net w).2 in
  form w' = form w ∧ svgFile w' = svgFile w ∧ file_control w' = file_control w ∧
  form (handle (OpenChange true) w').2 = form w ∧
  file_control (handle (OpenChange true) w').2 = file_control w.
Proof.
  intros w'. destruct (submit_keeps_form net w) as [Hform Hsvg].
  fold w' in Hform, Hsvg.
  unfold file_control. simpl. by rewrite Hform, Hsvg.
Qed.

(** ** Any sequence of events *)

Lemma after_cons ev evs w : after (ev :: evs) w = after evs (handle ev w).2.
Proof. done. Qed.

Lemma after_app evs1 evs2 w : after (evs1 ++ evs2) w = after evs2 (after evs1 w).
Proof. unfold after. apply foldl_app. Qed.

(** An event leaves the table alone or runs one submission on it. *)
Lemma handle_table ev w :
  table (handle ev w).2 = table w ∨
  ∃ net values w0,
    table w0 = table w ∧ table (handle ev w).2 = table (onSubmit net values w0).2.
Proof.
  destruct ev as [b|n|files|net]; simpl; try by left.
  - destruct (file_control w); [by left|]. left.
    apply (handleFileChange_frame _ w).
  - unfold submit, handleSubmit. destruct (resolver (form w)); [|by left].
    right. by exists net, (form w), (with_formErrors [] w).
Qed.

(** What every submission preserves, every sequence of events preserves. *)
Lemma after_table (R : Table → Table → Prop) :
  (∀ t, R t t) →
  (∀ t1 t2 t3, R t1 t2 → R t2 t3 → R t1 t3) →
  (∀ net values w, R (table w) (table (onSubmit net values w).2)) →
  ∀ evs w, R (table w) (table (after evs w)).
Proof.
  intros Hrefl Htrans Hstep evs.
  induction evs as [|ev evs IH]; intros w; [apply Hrefl|].
  rewrite after_cons. apply Htrans with (table (handle ev w).2); [|apply IH].
  destruct (handle_table ev w) as [-> | (net & values & w0 & <- & ->)];
    [apply Hrefl | apply Hstep].
Qed.

(** ** Rows of a name *)

Lemma eq_name_app n (l k : list Row) :
  eq_name n (l ++ k) = eq_name n l ++ eq_name n k.
Proof. unfold eq_name. apply filter_app. Qed.

Lemma eq_name_updated n f i (l : list Row) :
  length (eq_name n ((λ r, if eq_id i r then set_html_file f r else r) <$> l)) =
  length (eq_name n l).
Proof.
  unfold eq_name. induction l as [|r l IH]; [done|].
  rewrite fmap_cons, !filter_cons.
  assert (screens.name (if eq_id i r then set_html_file f r else r) =
          screens.name r) as Hname by (by destruct (eq_id i r), r).
  rewrite Hname. destruct (decide (screens.name r = n)); simpl; by rewrite IH.
Qed.

Lemma onSubmit_names net values w n :
  (length (eq_name n (rows (table w))) ≤
   length (eq_name n (rows (table (onSubmit net values w).2))))%nat.
Proof.
  destruct (onSubmit_rows net values w) as (v & _ & _ & _ & Hshape).
  destruct Hshape as [-> | [[_ ->] | [_ (i & _ & ->)]]]; simpl.
  - lia.
  - rewrite eq_name_app, length_app. lia.
  - rewrite eq_name_updated, eq_name_app, length_app. lia.
Qed.

Lemma after_names evs w n :
  (length (eq_name n (rows (table w))) ≤
   length (eq_name n (rows (table (after evs w)))))%nat.
Proof.
  revert n.
  apply (after_table
           (λ t t', ∀ n, (length (eq_name n (rows t)) ≤
                          length (eq_name n (rows t')))%nat)).
  - intros t n. lia.
  - intros t1 t2 t3 H12 H23 n. specialize (H12 n). specialize (H23 n). lia.
  - intros net values w0 n. apply onSubmit_names.
Qed.

(** X5. The component has no way to delete or rename a row: over any
    sequence of events, whatever the backend does, no stored row is lost (the
    table never gets shorter) and the number of stored rows with a given
    name never goes down. *)
Theorem rows_of_a_name_only_grow evs w n :
  (length (rows (table w)) ≤ length (rows (table (after evs w))))%nat ∧
  (length (eq_name n (rows (table w))) ≤
   length (eq_name n (rows (table (after evs w)))))%nat.
Proof.
  split; [|apply after_names].
  apply (after_table (λ t t', (length (rows t) ≤ length (rows t'))%nat)).
  - intros t. lia.
  - intros t1 t2 t3 H12 H23. lia.
  - intros net values w0.
    destruct (onSubmit_rows net values w0) as (v & _ & _ & _ & Hshape).
    destruct Hshape as [-> | [[_ ->] | [_ (i & _ & ->)]]]; simpl;
      rewrite ?length_fmap, ?length_app; simpl; lia.
Qed.

Lemma select_id_by_name_crowded net n t :
  (2 ≤ length (eq_name n (rows t)))%nat →
  data (select_id_by_name net n t) = None.
Proof.
  intros Hlen. unfold select_id_by_name.
  destruct (lookup_fault net); [done|].
  destruct (eq_name n (rows t)) as [|r1 [|r2 rest]]; simpl in *; try lia.
  done.
Qed.

Lemma table_step_names n t t' :
  rtc table_step t t' →
  (length (eq_name n (rows t)) ≤ length (eq_name n (rows t')))%nat.
Proof.
  induction 1 as [t | t1 t2 t3 Hstep _ IH]; [lia|].
  etrans; [|exact IH]. destruct Hstep as [v t | f i t]; simpl.
  - rewrite eq_name_app, length_app. lia.
  - by rewrite eq_name_updated.
Qed.

(** X6. A name that has two rows is never found again. The insert of a
    new version, once taken on a table that holds a row of the name, leaves
    two rows of it. From a table with two rows of a name, whatever inserts
    and updates of the component reach the table afterwards, in whatever
    order and from however many submissions, every lookup of that name
    yields no row, and a submission of the name whose lookup is answered on
    such a table asks for a fresh row with version 1 and for nothing else. *)
Theorem crowded_name_is_never_found n t t' net :
  (2 ≤ length (eq_name n (rows t)))%nat →
  rtc table_step t t' →
  (∀ values v t0,
     (1 ≤ length (eq_name (name values) (rows t0)))%nat →
     (2 ≤ length (eq_name (name values)
                    (rows (inserted (next_version values v) t0))))%nat) ∧
  data (select_id_by_name net n t') = None ∧
  ∀ values w,
    name values = n → table w = t' →
    requests (onSubmit net values w).2 =
      requests w ++ [ReqSelectId n;
                     ReqInsert (screens.mkInsert n (file values) 1 (lit ""))].
Proof.
  intros Htwo Hsteps. split.
  { intros values v t0 Hone. simpl. rewrite eq_name_app, length_app.
    unfold eq_name at 2. rewrite filter_cons. simpl.
    destruct (decide _); [simpl; lia | done]. }
  assert (data (select_id_by_name net n t') = None) as Hnone.
  { apply select_id_by_name_crowded.
    etrans; [exact Htwo | by apply table_step_names]. }
  split; [exact Hnone|].
  intros values w Hname Htable. rewrite onSubmit_cases. cbv zeta.
  unfold first_version. rewrite Hname, Htable, Hnone.
  destruct (insert_fault net); simpl; by rewrite <- app_assoc.
Qed.

Lemma crowded_name_is_never_found_witness :
  let t := {| rows := [home_1; about_5; home_6]; next_id := 4 |} in
  let t' := updated (lit "<svg>9</svg>") 1
              (inserted (screens.mkInsert (lit "about") (lit "<svg/>") 7 (lit ""))
                 t) in
  data (select_id_by_name no_faults (lit "home") t') = None.
Proof.
  intros t t'.
  refine (proj1 (proj2 (crowded_name_is_never_found (lit "home") t t'
                          no_faults _ _))).
  - simpl. lia.
  - eapply rtc_l; [apply step_insert|]. eapply rtc_l; [apply step_update|].
    apply rtc_refl.
Defined.

(** ** Versions *)

Lemma newVersion_positive net t :
  Forall (λ r, 1 ≤ screens.version r) (rows t) →
  1 ≤ newVersion (data (select_last_version net t)).
Proof.
  intros Hpos. rewrite newVersion_of_table.
  destruct (version_read_fault net); [lia|].
  destruct (max_version (rows t)) as [m|] eqn:Hmax; [|lia].
  destruct (Z.eqb_spec m (-1)); [lia|].
  apply max_version_spec in Hmax as [(r & Hr & <-) _].
  rewrite Forall_forall in Hpos. specialize (Hpos r Hr). simpl in Hpos. lia.
Qed.

Lemma onSubmit_positive net values w :
  Forall (λ r, 1 ≤ screens.version r) (rows (table w)) →
  Forall (λ r, 1 ≤ screens.version r) (rows (table (onSubmit net values w).2)).
Proof.
  intros Hpos.
  destruct (onSubmit_rows net values w) as (v & _ & _ & Hv & Hshape).
  assert (1 ≤ screens.ins_version v) as Hnew.
  { destruct Hv as [-> | ->]; [lia | by apply newVersion_positive]. }
  assert (Forall (λ r, 1 ≤ screens.version r)
            (rows (table w) ++ [stored (next_id (table w)) v])) as Hboth.
  { apply Forall_app. split; [done|]. by repeat constructor. }
  destruct Hshape as [-> | [[_ ->] | [_ (i & _ & ->)]]]; simpl; try done.
  apply Forall_fmap. eapply Forall_impl; [exact Hboth|].
  intros r Hr. simpl. by destruct (eq_id i r), r.
Qed.

(** X7. Versions stay positive: if every stored version is at least 1, it
    is so after any sequence of events, whatever the backend does. A first
    version is 1, and a new version is 1 or one more than a stored one. *)
Theorem versions_stay_positive evs w :
  Forall (λ r, 1 ≤ screens.version r) (rows (table w)) →
  Forall (λ r, 1 ≤ screens.version r) (rows (table (after evs w))).
Proof.
  apply (after_table
           (λ t t', Forall (λ r, 1 ≤ screens.version r) (rows t) →
                    Forall (λ r, 1 ≤ screens.version r) (rows t'))).
  - done.
  - intros t1 t2 t3 H12 H23 H1. by apply H23, H12.
  - intros net values w0. apply onSubmit_positive.
Qed.

Lemma versions_stay_positive_witness :
  let t := {| rows := [home_1; about_5]; next_id := 3 |} in
  let down := {| lookup_fault := None; version_read_fault := Some unreachable;
                 insert_fault := None; update_fault := None |} in
  Forall (λ r, 1 ≤ screens.version r)
    (rows (table (after [OpenChange true; TypeName (lit "home");
                         Submit down; Submit no_faults]
                    (opened t new_home)))).
Proof.
  intros t down.
  apply (versions_stay_positive _ (opened t new_home)).
  repeat constructor; simpl; lia.
Defined.

(** X8. On the update path with the version read answered, if every stored
    version is a safe integer that is not negative, the version asked for is
    greater than every stored version, of whatever name. *)
Theorem new_version_exceeds_stored net values w i :
  data (select_id_by_name net (name values) (table w)) = Some i →
  version_read_fault net = None →
  Forall (λ r, 0 ≤ screens.version r ∧ safe_integer (screens.version r))
    (rows (table w)) →
  ∃ v,
    ReqInsert (next_version values v) ∈ requests (onSubmit net values w).2 ∧
    Forall (λ r, screens.version r < v) (rows (table w)).
Proof.
  intros Hfound Hread Hpos.
  exists (newVersion (data (select_last_version net (table w)))). split.
  - rewrite onSubmit_cases. cbv zeta. rewrite Hfound.
    destruct (insert_fault net), (update_fault net); simpl;
      rewrite !elem_of_app, !list_elem_of_singleton; tauto.
  - rewrite newVersion_of_table, Hread.
    destruct (max_version (rows (table w))) as [m|] eqn:Hmax.
    + apply max_version_spec in Hmax as [(r & Hr & Hrm) Hle].
      rewrite Forall_forall in Hpos. pose proof (Hpos r Hr) as [Hr0 _].
      destruct (Z.eqb_spec m (-1)); [lia|].
      apply Forall_forall. intros x Hx. specialize (Hle x Hx). lia.
    + destruct (rows (table w)); [constructor | done].
Qed.

Lemma new_version_exceeds_stored_witness :
  let t := {| rows := [home_1; about_5]; next_id := 3 |} in
  ∃ v,
    ReqInsert (next_version new_home v) ∈
      requests (onSubmit no_faults new_home (opened t new_home)).2 ∧
    Forall (λ r, screens.version r < v) (rows t).
Proof.
  intros t.
  apply (new_version_exceeds_stored no_faults new_home (opened t new_home) 1);
    [reflexivity | reflexivity |].
  repeat constructor; unfold safe_integer; simpl; lia.
Defined.

(** ** The form's file value *)

Lemma handle_keeps_file_in_step ev w :
  file (form w) = match svgFile w with Some (_, s) => s | None => lit "" end →
  file (form (handle ev w).2) =
    match svgFile (handle ev w).2 with Some (_, s) => s | None => lit "" end.
Proof.
  intros Hinv. destruct ev as [b|n|files|net]; simpl; try done.
  - unfold file_control. destruct (svgFile w) as [[n s]|] eqn:Hsvg.
    { simpl. by rewrite Hsvg. }
    unfold drop_files, onDrop.
    destruct (head (acceptedFiles dropzoneOptions files)) as [f|];
      [|simpl; by rewrite Hsvg].
    destruct (file_read f) as [[s|]|ev] eqn:Hread.
    + by rewrite (handleFileChange_loaded f s w Hread).
    + destruct (handleFileChange_failed f w) as [e ->];
        [by intros s; rewrite Hread | simpl; by rewrite Hsvg].
    + destruct (handleFileChange_failed f w) as [e ->];
        [by intros s; rewrite Hread | simpl; by rewrite Hsvg].
  - destruct (submit_keeps_form net w) as [-> ->]. done.
Qed.

(** X9. From the state the component mounts with, after any sequence of
    events the form's [file] value is the text of the file the badge stands
    for, and the empty string while the drop area is shown: nothing but a
    file that was read ever sets it. *)
Theorem file_value_follows_the_badge t evs :
  let w := after evs (initial t) in
  file (form w) = match svgFile w with Some (_, s) => s | None => lit "" end.
Proof.
  intros w. subst w.
  assert (∀ w0,
            file (form w0) =
              match svgFile w0 with Some (_, s) => s | None => lit "" end →
            file (form (after evs w0)) =
              match svgFile (after evs w0) with
              | Some (_, s) => s | None => lit "" end) as Hall.
  { induction evs as [|ev evs IH]; intros w0 Hinv; [done|].
    rewrite after_cons. by apply IH, handle_keeps_file_in_step. }
  by apply Hall.
Qed.

(** ** From the drop to the stored row *)

(** X10. Values that pass the schema reach the backend as they stand: when
    the form's [name] and [file] both have at least 2 characters, submitting
    clears the messages and runs [onSubmit] on exactly the form's values, so
    the first round trip is the lookup of the form's [name]. *)
Theorem valid_fields_reach_the_backend net w :
  (2 ≤ length (name (form w)))%nat →
  (2 ≤ length (file (form w)))%nat →
  submit net w = onSubmit net (form w) (with_formErrors [] w) ∧
  formErrors (submit net w).2 = [] ∧
  ∃ rest,
    requests (submit net w).2 =
      requests w ++ ReqSelectId (name (form w)) :: rest.
Proof.
  intros Hn Hf.
  pose proof (long_fields_reach_onSubmit net w Hn Hf) as Hrun.
  split; [exact Hrun|]. rewrite Hrun. split.
  - rewrite onSubmit_cases. cbv zeta.
    by destruct (data _), (insert_fault net), (update_fault net).
  - rewrite onSubmit_cases. cbv zeta.
    destruct (data _), (insert_fault net), (update_fault net); simpl;
      rewrite <- ?app_assoc; by eexists.
Qed.

Lemma valid_fields_reach_the_backend_witness :
  let w := opened {| rows := [about_5]; next_id := 3 |} new_home in
  formErrors (submit no_faults w).2 = [].
Proof.
  intros w.
  refine (proj1 (proj2 (valid_fields_reach_the_backend no_faults w _ _)));
    simpl; lia.
Defined.

Lemma submit_blocked_without_file net w :
  (length (file (form w)) < 2)%nat →
  submit net w =
    (Returned tt,
     with_formErrors
       (issues FieldName (form w) ++ [(FieldFile, "A file is necessary."%string)])
       w).
Proof.
  intros Hshort. unfold submit, handleSubmit, resolver.
  rewrite (issues_spec FieldFile). simpl.
  destruct (Nat.ltb_spec (length (file (form w))) 2); [|lia].
  by destruct (issues FieldName (form w)).
Qed.

(** X11. From mount to stored row. The user opens the dialog, types a name
    of at least 2 characters that no stored row has, drops files of which
    the first accepted one reads as a text of at least 2 characters, and
    submits; the backend takes the insert. Then the table has gained exactly
    one row, with that name, that text as [html_file], version 1 and no
    changes; the view has refreshed once and the dialog is closed, with the
    badge still naming the file. *)
Theorem dropped_file_is_what_is_stored t n files f s net :
  head (acceptedFiles dropzoneOptions files) = Some f →
  file_read f = Loaded (Some s) →
  (2 ≤ length n)%nat →
  (2 ≤ length s)%nat →
  eq_name n (rows t) = [] →
  insert_fault net = None →
  let w := after [OpenChange true; TypeName n; Drop files; Submit net]
             (initial t) in
  rows (table w) = rows t ++ [screens.mkRow (next_id t) n s 1 (lit "")] ∧
  refreshes w = 1%nat ∧ dialogOpen w = false ∧
  file_control w = Badge (file_name f) ∧ formErrors w = [].
Proof.
  intros Hhead Hread Hn Hs Hfree Hins w. subst w.
  unfold after. simpl. unfold drop_files, onDrop. rewrite Hhead.
  rewrite (handleFileChange_loaded f s _ Hread).
  rewrite long_fields_reach_onSubmit by done.
  rewrite onSubmit_cases. cbv zeta. simpl.
  rewrite (select_id_by_name_none _ _ _ Hfree), Hins. done.
Qed.

Lemma dropped_file_is_what_is_stored_witness :
  let f := {| file_name := lit "home.svg"; file_type := lit "image/svg+xml";
              file_size := 1024; file_read := Loaded (Some (lit "<svg/>")) |} in
  let t := {| rows := [about_5]; next_id := 3 |} in
  rows (table (after [OpenChange true; TypeName (lit "home"); Drop [f];
                      Submit no_faults] (initial t))) =
    [about_5; screens.mkRow 3 (lit "home") (lit "<svg/>") 1 (lit "")].
Proof.
  intros f t.
  refine (proj1 (dropped_file_is_what_is_stored t (lit "home") [f] f
                   (lit "<svg/>") no_faults eq_refl eq_refl _ _ eq_refl
                   eq_refl));
    simpl; lia.
Defined.

(** X12. No file, no submission. From mount, if the drop hands no file to
    the reader, or the file cannot be read, or its text has fewer than 2
    characters, then submitting makes no round trip at all: the table is
    untouched, the dialog stays open, nothing is refreshed and the form
    shows "A file is necessary.". *)
Theorem no_file_no_submission t n files net :
  match head (acceptedFiles dropzoneOptions files) with
  | None => True
  | Some f => ∀ s, file_read f = Loaded (Some s) → (length s < 2)%nat
  end →
  let w := after [OpenChange true; TypeName n; Drop files; Submit net]
             (initial t) in
  requests w = [] ∧ table w = t ∧ dialogOpen w = true ∧
  refreshes w = 0%nat ∧
  (FieldFile, "A file is necessary."%string) ∈ formErrors w.
Proof.
  intros Hfile w. subst w. unfold after. simpl. unfold drop_files, onDrop.
  set (w2 := with_form _ (with_dialogOpen true (initial t))).
  assert (∃ w3, (handleFileChange
                   (head (acceptedFiles dropzoneOptions files)) w2).2 = w3 ∧
                requests w3 = [] ∧ table w3 = t ∧ dialogOpen w3 = true ∧
                refreshes w3 = 0%nat ∧ (length (file (form w3)) < 2)%nat)
    as (w3 & -> & Hreq & Htable & Hopen & Hrefresh & Hshort).
  { eexists. split; [done|].
    destruct (handleFileChange_frame
                (head (acceptedFiles dropzoneOptions files)) w2)
      as (_ & -> & -> & -> & -> & _).
    do 4 (split; [done|]).
    destruct (head (acceptedFiles dropzoneOptions files)) as [f|];
      [|simpl; lia].
    destruct (file_read f) as [[s|]|ev] eqn:Hread.
    - rewrite (handleFileChange_loaded f s w2 Hread). simpl. by apply Hfile.
    - destruct (handleFileChange_failed f w2) as [e ->];
        [by intros s; rewrite Hread | simpl; lia].
    - destruct (handleFileChange_failed f w2) as [e ->];
        [by intros s; rewrite Hread | simpl; lia]. }
  rewrite (submit_blocked_without_file net w3 Hshort). simpl.
  do 4 (split; [done|]).
  apply elem_of_app. right. by left.
Qed.

Lemma no_file_no_submission_witness :
  let big := {| file_name := lit "home.svg"; file_type := lit "image/svg+xml";
                file_size := 1024 * 1024 * 10 + 1;
                file_read := Loaded (Some (lit "<svg/>")) |} in
  let t := {| rows := [about_5]; next_id := 3 |} in
  let w := after [OpenChange true; TypeName (lit "home"); Drop [big];
                  Submit no_faults] (initial t) in
  requests w = [] ∧ table w = t.
Proof.
  intros big t w.
  destruct (no_file_no_submission t (lit "home") [big] no_faults I)
    as (Hreq & Htable & _).
  split; [exact Hreq | exact Htable].
Defined.

(** ** The first two uploads of a name *)

Lemma max_version_snoc (l : list Row) r :
  max_version (l ++ [r]) =
  Some match max_version l with
       | None => screens.version r
       | Some m => Z.max m (screens.version r)
       end.
Proof.
  induction l as [|a l IH]; simpl; [done|].
  rewrite IH. f_equal. destruct (max_version l); lia.
Qed.

(** X13. The first two uploads of a name, with every round trip succeeding,
    ids below the next generated one and stored versions that are safe
    integers. The first upload stores a row with version 1. The second finds that row, stores a row whose version
    is one more than the highest version then stored (at least 2), and
    replaces the content of the first row, and of no other row, with the
    second upload's content. *)
Theorem second_upload_updates_the_first v1 v2 w :
  name v2 = name v1 →
  eq_name (name v1) (rows (table w)) = [] →
  Forall (λ r, screens.id r < next_id (table w)) (rows (table w)) →
  Forall (λ r, safe_integer (screens.version r)) (rows (table w)) →
  let top := match max_version (rows (table w)) with
             | None => 1
             | Some m => Z.max m 1
             end in
  let w2 := (onSubmit no_faults v2 (onSubmit no_faults v1 w).2).2 in
  rows (table w2) =
    rows (table w) ++
      [screens.mkRow (next_id (table w)) (name v1) (file v2) 1 (lit "");
       screens.mkRow (next_id (table w) + 1) (name v1) (file v2) (top + 1)
         (lit "TODO: Specify the changes here")] ∧
  2 ≤ top + 1.
Proof.
  intros Hname Hfree Hids _ top w2.
  split; [|subst top; destruct (max_version _); lia].
  set (r1 := screens.mkRow (next_id (table w)) (name v1) (file v1) 1 (lit "")).
  assert (table (onSubmit no_faults v1 w).2 =
          {| rows := rows (table w) ++ [r1];
             next_id := next_id (table w) + 1 |}) as Hfirst.
  { rewrite onSubmit_cases. cbv zeta.
    by rewrite (select_id_by_name_none _ _ _ Hfree). }
  assert (data (select_id_by_name no_faults (name v2)
                  (table (onSubmit no_faults v1 w).2)) =
          Some (next_id (table w))) as Hfound.
  { rewrite Hfirst, Hname.
    apply (select_id_by_name_single _ _ r1). simpl.
    rewrite eq_name_app, Hfree. unfold eq_name. rewrite filter_cons. simpl.
    by destruct (decide _). }
  assert (newVersion (data (select_last_version no_faults
                              (table (onSubmit no_faults v1 w).2))) = top + 1)
    as Hnew.
  { rewrite newVersion_of_table, Hfirst. simpl. rewrite max_version_snoc.
    simpl. subst top.
    destruct (max_version (rows (table w))) as [m|].
    - destruct (Z.eqb_spec (Z.max m 1) (-1)); [lia | done].
    - done. }
  subst w2. rewrite onSubmit_cases. cbv zeta. rewrite Hfound, Hnew, Hfirst.
  simpl. unfold next_version, stored. simpl.
  rewrite Hname, <- app_assoc, fmap_app, update_rows_elsewhere.
  - subst r1. simpl. unfold eq_id. simpl.
    rewrite bool_decide_eq_true_2 by done.
    rewrite bool_decide_eq_false_2 by lia. done.
  - intros r Hr. rewrite Forall_forall in Hids. specialize (Hids r Hr).
    simpl in Hids. lia.
Qed.

Lemma second_upload_updates_the_first_witness :
  let t := {| rows := [about_5]; next_id := 3 |} in
  let v1 := {| name := lit "home"; file := lit "<svg>1</svg>" |} in
  let w2 := (onSubmit no_faults new_home
               (onSubmit no_faults v1 (opened t v1)).2).2 in
  rows (table w2) =
    [about_5;
     screens.mkRow 3 (lit "home") (lit "<svg>new</svg>") 1 (lit "");
     screens.mkRow 4 (lit "home") (lit "<svg>new</svg>") 6
       (lit "TODO: Specify the changes here")].
Proof.
  intros t v1 w2.
  refine (proj1 (second_upload_updates_the_first v1 new_home (opened t v1)
                   eq_refl eq_refl _ _));
    repeat constructor; unfold safe_integer; simpl; lia.
Defined.

(** ** How a submission ends *)

(** X14. A submission ends in one of two ways, and only the insert and the
    update decide which. If the insert is taken and, on the update path, the
    update too, the view refreshes once and the dialog closes, even when
    the lookup or the version read failed. Otherwise the view is not
    refreshed, the dialog is left as it was, and the last thing logged is
    the error of the round trip that failed. *)
Theorem submission_ends_in_one_of_two_ways net values w :
  let w' := (onSubmit net values w).2 in
  let found := data (select_id_by_name net (name values) (table w)) in
  (insert_fault net = None ∧ (is_Some found → update_fault net = None) ∧
   refreshes w' = S (refreshes w) ∧ dialogOpen w' = false) ∨
  (∃ e, (insert_fault net = Some e ∨
         (is_Some found ∧ insert_fault net = None ∧ update_fault net = Some e)) ∧
        refreshes w' = refreshes w ∧ dialogOpen w' = dialogOpen w ∧
        last (console w') = Some (ConsoleError (ThrownPostgrest e))).
Proof.
  intros w' found. subst w' found. rewrite onSubmit_cases. cbv zeta.
  destruct (data (select_id_by_name net (name values) (table w))) as [i|].
  - destruct (insert_fault net) as [e|].
    { right. exists e. split; [by left|]. simpl. by rewrite last_snoc. }
    destruct (update_fault net) as [e|].
    + right. exists e. split; [right; by eauto|]. simpl. by rewrite last_snoc.
    + left. by repeat split.
  - destruct (insert_fault net) as [e|].
    + right. exists e. split; [by left|]. simpl. by rewrite last_snoc.
    + left. repeat split; done.
Qed.

(** ** The limits of the drop area *)

Lemma fileAccepted_svg_mime f :
  toLowerCase (file_type f) = lit "image/svg+xml" →
  fileAccepted dropzoneOptions f = true.
Proof.
  intros Hmime. unfold fileAccepted. rewrite acceptAttr_options.
  apply orb_true_iff. right. unfold accepts. simpl.
  apply orb_true_iff. left. unfold matches_entry.
  change (toLowerCase (lit "image/svg+xml")) with (lit "image/svg+xml").
  change (bool_decide (head (lit "image/svg+xml") = Some 46%N)) with false.
  change (endsWith (lit "image/svg+xml") (lit "/*")) with false.
  cbv iota. by apply bool_decide_eq_true.
Qed.

(** X15. A file of type [image/svg+xml] of at most 10 MiB, dropped alone, is
    handed to the reader, at exactly 10 MiB too; and a drop in which two or
    more files pass the type and size checks hands over none of them and
    changes nothing. *)
Theorem drop_area_limits :
  (∀ f, toLowerCase (file_type f) = lit "image/svg+xml" →
        file_size f ≤ 1024 * 1024 * 10 →
        acceptedFiles dropzoneOptions [f] = [f]) ∧
  (∀ files w,
     (2 ≤ length (List.filter
                    (λ f, fileAccepted dropzoneOptions f
                          && fileMatchSize dropzoneOptions f) files))%nat →
     acceptedFiles dropzoneOptions files = [] ∧
     drop_files files w = (Returned tt, w)).
Proof.
  split.
  - intros f Hmime Hsize. unfold acceptedFiles. simpl.
    rewrite (fileAccepted_svg_mime f Hmime). unfold fileMatchSize. simpl.
    destruct (Z.ltb_spec (1024 * 1024 * 10) (file_size f)); [lia | done].
  - intros files w Hmany.
    assert (acceptedFiles dropzoneOptions files = []) as Hnone.
    { unfold acceptedFiles.
      destruct (List.filter _ files) as [|f [|g l]]; simpl in *; try lia.
      replace (1 <? Z.of_nat (S (S (length l)))) with true; [done|].
      symmetry. apply Z.ltb_lt. lia. }
    split; [exact Hnone|]. unfold drop_files. by rewrite Hnone.
Qed.
